(** * casautils: proper-motion correction of a measurement set

    A shallow embedding of [src/casautils.py] ([correctForPM] and
    [updatePM]) and the properties its specification states about them.

    Reading guide.
    - Python floats and numpy [float64] values are kept behind the
      interface [Float64]: the program is written once against it, so a
      statement proved for every implementation holds for IEEE binary64
      (the instance [binary64], on Rocq's primitive floats, which
      computes) and for the real numbers (the instance [exact], which
      carries the true cosine).
    - numpy [int64] values (field identifiers, the elapsed-seconds array)
      are [Z].
    - The CASA table tool [tb], the Simbad query and [print] are the
      environment: the two tables the code touches are lists of rows, the
      query is a function, and every [print] and every [tb.putcell] is
      logged in program order.
    - An exception is a result, not a crash: the state reached when it is
      raised (cells already written, lines already printed) is kept. *)

From Stdlib Require Import ZArith Lia Reals Lra Floats.
From stdpp Require Import base list strings.

Set Warnings "-inexact-float".

Open Scope Z_scope.

(** ** Exceptions *)

Inductive exn : Type :=
| IndexError      (* raised by numpy and by Python indexing *)
| RuntimeError    (* raised by the table tool for a row that does not exist *)
| ValueError      (* "cannot convert float NaN to integer" *)
| OverflowError.  (* "cannot convert float infinity to integer",
                     "Python int too large to convert to C long" *)

Inductive result (A : Type) : Type :=
| Ok (a : A)
| Raise (e : exn).
Arguments Ok {A} a.
Arguments Raise {A} e.

(** ** numpy's float64, as an interface *)

Class Float64 (F : Type) : Type := {
  fadd : F -> F -> F;
  fsub : F -> F -> F;
  fmul : F -> F -> F;
  fdiv : F -> F -> F;
  (** [a == b] *)
  feqb : F -> F -> bool;
  (** the conversion numpy applies to an [int] operand of a float
      operation *)
  of_int : Z -> F;
  (** the conversion numpy applies when a float is stored into an [int64]
      array: the fractional part is dropped (rounding toward zero); a
      value that is not a number, or whose whole part is no [int64], makes
      the store raise *)
  to_int64 : F -> result Z;
  (** the literal [206264.80624709636] *)
  lit_206264_80624709636 : F
}.

(** [np.cos] comes from the platform's libm; it is kept apart from the
    arithmetic so that whatever does not call it can be evaluated. *)
Class Cosine (F : Type) : Type := np_cos : F -> F.

Declare Scope f64_scope.
Delimit Scope f64_scope with f64.
Infix "+" := fadd : f64_scope.
Infix "-" := fsub : f64_scope.
Infix "*" := fmul : f64_scope.
Infix "/" := fdiv : f64_scope.

(** ** Python values reaching [field] and [newtime] *)

Inductive pyscalar (F : Type) : Type :=
| PyInt (n : Z)
| PyFloat (x : F)
| PyStr (s : string)
| PyNone.
Arguments PyInt {F} n.
Arguments PyFloat {F} x.
Arguments PyStr {F} s.
Arguments PyNone {F}.

(** A scalar, or a list/tuple of scalars.  Integers are taken within
    the [int64] range; [bool] values (which [isinstance] counts as [int]
    and numpy as a mask), numpy scalars and nested sequences are left
    out. *)
Inductive pyvalue (F : Type) : Type :=
| Scalar (v : pyscalar F)
| Seq (l : list (pyscalar F)).
Arguments Scalar {F} v.
Arguments Seq {F} l.

Inductive dtype : Type := int64 | float64 | str_ | object_.

#[export] Instance dtype_eq_dec : EqDecision dtype.
Proof. solve_decision. Defined.

(** ** The numpy operations the code uses *)

Module np.

Definition scalar_dtype {F} (v : pyscalar F) : dtype :=
  match v with
  | PyInt _ => int64
  | PyFloat _ => float64
  | PyStr _ => str_
  | PyNone => object_
  end.

(** The common type [np.array] gives to a list of scalars. *)
Definition promote (a b : dtype) : dtype :=
  match a, b with
  | object_, _ | _, object_ => object_
  | str_, _ | _, str_ => str_
  | float64, _ | _, float64 => float64
  | int64, int64 => int64
  end.

Definition seq_dtype {F} (l : list (pyscalar F)) : dtype :=
  match l with
  | [] => float64                      (* np.array([]) *)
  | _ => foldr (fun v d => promote (scalar_dtype v) d) int64 l
  end.

(** An array as far as this program looks at it: its entries when they
    are integers, its element type when they are not (such an array is
    only ever used as an index, which numpy refuses). *)
Inductive ndarray : Type :=
| Ints (l : list Z)
| NonIndex (d : dtype).

Definition ints_of {F} (l : list (pyscalar F)) : list Z :=
  omap (fun v => match v with PyInt n => Some n | _ => None end) l.

(** [np.array(field)] for a value that is neither a [str] nor an [int]. *)
Definition array {F} (field : pyvalue F) : ndarray :=
  match field with
  | Scalar v => NonIndex (scalar_dtype v)
  | Seq l => if decide (seq_dtype l = int64) then Ints (ints_of l)
             else NonIndex (seq_dtype l)
  end.

(** [np.where(mask)[0]]: the positions holding [True], ascending. *)
Fixpoint where_from (mask : list bool) (i : Z) : list Z :=
  match mask with
  | [] => []
  | b :: mask' =>
      if b then i :: where_from mask' (i + 1) else where_from mask' (i + 1)
  end.

Definition where_ (mask : list bool) : list Z := where_from mask 0.

(** [col[i]] for one integer: a negative index counts from the end. *)
Definition item {A} (col : list A) (i : Z) : result A :=
  let n := Z.of_nat (length col) in
  let k := if i <? 0 then i + n else i in
  if (0 <=? k) && (k <? n) then
    match col !! Z.to_nat k with
    | Some a => Ok a
    | None => Raise IndexError
    end
  else Raise IndexError.

(** [col[idx]] for an index array of integers. *)
Fixpoint take_ints {A} (col : list A) (idx : list Z) : result (list A) :=
  match idx with
  | [] => Ok []
  | i :: idx' =>
      match item col i with
      | Ok a =>
          match take_ints col idx' with
          | Ok l => Ok (a :: l)
          | Raise e => Raise e
          end
      | Raise e => Raise e
      end
  end.

(** [col[idx]]: "arrays used as indices must be of integer (or boolean)
    type". *)
Definition take {A} (col : list A) (idx : ndarray) : result (list A) :=
  match idx with
  | Ints l => take_ints col l
  | NonIndex _ => Raise IndexError
  end.

(** The entries of an integer array ([len], iteration).  An array of
    another type never gets this far: indexing with it has raised. *)
Definition entries (a : ndarray) : list Z :=
  match a with
  | Ints l => l
  | NonIndex _ => []
  end.

(** [np.zeros_like(a)] for an integer array: as many entries, of the
    same (integer) type, so the result is again a list of [Z]. *)
Definition zeros_like (a : ndarray) : list Z :=
  replicate (length (entries a)) 0.

End np.

(** [enumerate(l)] *)
Fixpoint enumerate_from {A} (i : Z) (l : list A) : list (Z * A) :=
  match l with
  | [] => []
  | a :: l' => (i, a) :: enumerate_from (i + 1) l'
  end.

Definition enumerate {A} (l : list A) : list (Z * A) := enumerate_from 0 l.

(** ** The measurement set *)

Inductive role : Type := REFERENCE_DIR | PHASE_DIR | DELAY_DIR.

#[export] Instance role_eq_dec : EqDecision role.
Proof. solve_decision. Defined.

(** One row of the FIELD table; a direction is a two-element float
    array.  [f_other] stands for the columns the code never names. *)
Record field_row (F : Type) : Type := {
  f_NAME : string;
  f_SOURCE_ID : Z;
  f_TIME : F;
  f_REFERENCE_DIR : F * F;
  f_PHASE_DIR : F * F;
  f_DELAY_DIR : F * F;
  f_other : list (string * string)
}.
Arguments f_NAME {F} _.
Arguments f_SOURCE_ID {F} _.
Arguments f_TIME {F} _.
Arguments f_REFERENCE_DIR {F} _.
Arguments f_PHASE_DIR {F} _.
Arguments f_DELAY_DIR {F} _.
Arguments f_other {F} _.

(** One row of the SOURCE table. *)
Record source_row (F : Type) : Type := {
  s_NAME : string;
  s_SOURCE_ID : Z;
  s_PROPER_MOTION : F * F;
  s_other : list (string * string)
}.
Arguments s_NAME {F} _.
Arguments s_SOURCE_ID {F} _.
Arguments s_PROPER_MOTION {F} _.
Arguments s_other {F} _.

Record ms (F : Type) : Type := {
  FIELD : list (field_row F);
  SOURCE : list (source_row F)
}.
Arguments FIELD {F} _.
Arguments SOURCE {F} _.

Definition get_dir {F} (d : role) (r : field_row F) : F * F :=
  match d with
  | REFERENCE_DIR => f_REFERENCE_DIR r
  | PHASE_DIR => f_PHASE_DIR r
  | DELAY_DIR => f_DELAY_DIR r
  end.

Definition set_dir {F} (d : role) (v : F * F) (r : field_row F)
    : field_row F :=
  match d with
  | REFERENCE_DIR =>
      {| f_NAME := f_NAME r; f_SOURCE_ID := f_SOURCE_ID r;
         f_TIME := f_TIME r; f_REFERENCE_DIR := v;
         f_PHASE_DIR := f_PHASE_DIR r; f_DELAY_DIR := f_DELAY_DIR r;
         f_other := f_other r |}
  | PHASE_DIR =>
      {| f_NAME := f_NAME r; f_SOURCE_ID := f_SOURCE_ID r;
         f_TIME := f_TIME r; f_REFERENCE_DIR := f_REFERENCE_DIR r;
         f_PHASE_DIR := v; f_DELAY_DIR := f_DELAY_DIR r;
         f_other := f_other r |}
  | DELAY_DIR =>
      {| f_NAME := f_NAME r; f_SOURCE_ID := f_SOURCE_ID r;
         f_TIME := f_TIME r; f_REFERENCE_DIR := f_REFERENCE_DIR r;
         f_PHASE_DIR := f_PHASE_DIR r; f_DELAY_DIR := v;
         f_other := f_other r |}
  end.

Definition set_pm {F} (v : F * F) (r : source_row F) : source_row F :=
  {| s_NAME := s_NAME r; s_SOURCE_ID := s_SOURCE_ID r;
     s_PROPER_MOTION := v; s_other := s_other r |}.

(** ** What an invocation leaves behind *)

(** The lines printed and the cells written, in program order. *)
Inductive event (F : Type) : Type :=
| SimbadNotFound (source : pyvalue F)      (* "%s not found" *)
| SimbadFound (pmra pmdec : F)             (* "Proper motion found in Simbad: ..." *)
| CurrentPM (pmra pmdec : F)               (* "Current proper motion in ms: ..." *)
| Updated                                  (* "Proper motion updated" *)
| Calculating (j : Z)                      (* "Calculating new direction for field %i" *)
| DidNotFind (field : pyvalue F)           (* "Did not find source = " *)
| PutDir (d : role) (j : Z) (v : F * F)    (* tb.putcell(direct, j, ...) on FIELD *)
| PutPM (rows : list Z) (v : F * F).       (* tb.putcell('PROPER_MOTION', s, ...) on SOURCE *)
Arguments SimbadNotFound {F} source.
Arguments SimbadFound {F} pmra pmdec.
Arguments CurrentPM {F} pmra pmdec.
Arguments Updated {F}.
Arguments Calculating {F} j.
Arguments DidNotFind {F} field.
Arguments PutDir {F} d j v.
Arguments PutPM {F} rows v.

Record state (F : Type) : Type := {
  outms : ms F;
  log : list (event F)
}.
Arguments outms {F} _.
Arguments log {F} _.

(** A computation reads and writes the state and may raise; what it
    wrote before raising stays written. *)
Definition M (F A : Type) : Type := state F -> result A * state F.

Definition ret {F A} (a : A) : M F A := fun s => (Ok a, s).

Definition bind {F A B} (m : M F A) (k : A -> M F B) : M F B :=
  fun s =>
    match m s with
    | (Ok a, s') => k a s'
    | (Raise e, s') => (Raise e, s')
    end.

Definition lift {F A} (r : result A) : M F A := fun s => (r, s).

Definition get_ms {F} : M F (ms F) := fun s => (Ok (outms s), s).

Definition emit {F} (e : event F) : M F unit :=
  fun s => (Ok tt, {| outms := outms s; log := log s ++ [e] |}).

Definition set_FIELD {F} (t : list (field_row F)) : M F unit :=
  fun s => (Ok tt, {| outms := {| FIELD := t; SOURCE := SOURCE (outms s) |};
                      log := log s |}).

Definition set_SOURCE {F} (t : list (source_row F)) : M F unit :=
  fun s => (Ok tt, {| outms := {| FIELD := FIELD (outms s); SOURCE := t |};
                      log := log s |}).

Notation "'let*' x ':=' m 'in' k" := (bind m (fun x => k))
  (at level 10, x pattern, m at level 100, k at level 200,
   format "'[v' 'let*'  x  ':='  m  'in' '/' k ']'").

(** A [for] loop that carries one variable: the body for each element in
    turn, stopping where it raises. *)
Fixpoint for_each {F A S} (body : A -> S -> M F S) (l : list A) (s : S)
    : M F S :=
  match l with
  | [] => ret s
  | a :: l' => let* s' := body a s in for_each body l' s'
  end.

(** ** The program *)

Section Code.

Context {F : Type} {f64 : Float64 F} {cosine : Cosine F}.

(** [SECONDS_PER_YEAR = 31556925.] *)
Definition SECONDS_PER_YEAR : F := of_int 31556925.

(** [ARCSEC_PER_RAD=206264.80624709636] *)
Definition ARCSEC_PER_RAD : F := lit_206264_80624709636.

(** [1000*ARCSEC_PER_RAD*SECONDS_PER_YEAR]: the milliarcseconds per year
    that make one radian per second. *)
Definition MAS_PER_YEAR : F :=
  ((of_int 1000 * ARCSEC_PER_RAD) * SECONDS_PER_YEAR)%f64.

(** Line 125, [.../(1000*ARCSEC_PER_RAD*SECONDS_PER_YEAR)]: catalogue
    units to table units, on each component. *)
Definition to_rad_per_s (pm : F * F) : F * F :=
  ((fst pm / MAS_PER_YEAR)%f64, (snd pm / MAS_PER_YEAR)%f64).

(** Line 129, [...*(1000*ARCSEC_PER_RAD*SECONDS_PER_YEAR)]: table units
    to catalogue units. *)
Definition to_mas_per_yr (pm : F * F) : F * F :=
  ((fst pm * MAS_PER_YEAR)%f64, (snd pm * MAS_PER_YEAR)%f64).

(** *** The table tool *)

(** [tb.getcell(direct, j)] on FIELD: the table tool knows the rows
    [0 .. nrows-1] and raises for any other number. *)
Definition getcell (direct : role) (j : Z) : M F (F * F) :=
  let* t := get_ms in
  if (0 <=? j) && (j <? Z.of_nat (length (FIELD t))) then
    match FIELD t !! Z.to_nat j with
    | Some r => ret (get_dir direct r)
    | None => lift (Raise RuntimeError)
    end
  else lift (Raise RuntimeError).

(** [tb.putcell(direct, j, v)] on FIELD. *)
Definition putcell (direct : role) (j : Z) (v : F * F) : M F unit :=
  let* t := get_ms in
  if (0 <=? j) && (j <? Z.of_nat (length (FIELD t))) then
    let* _ := set_FIELD (alter (set_dir direct v) (Z.to_nat j) (FIELD t)) in
    emit (PutDir direct j v)
  else lift (Raise RuntimeError).

(** [tb.putcell('PROPER_MOTION', rows, v)] on SOURCE: given an array of
    row numbers, the tool puts the value in each of them.  The rows come
    from [np.where] on a column of the same table, so all of them
    exist. *)
Definition putcell_PROPER_MOTION (rows : list Z) (v : F * F) : M F unit :=
  let* t := get_ms in
  let* _ := set_SOURCE
    (foldl (fun tbl s => alter (set_pm v) (Z.to_nat s) tbl) (SOURCE t) rows) in
  emit (PutPM rows v).

(** [names == x], one entry of it: a name equals a string when the two
    are the same string, and never a value of another type. *)
Definition name_is (x : pyvalue F) (name : string) : bool :=
  match x with
  | Scalar (PyStr s) => String.eqb name s
  | _ => false
  end.

(** *** updatePM (lines 111-135) *)

(** [Simbad.query_object] is the parameter [simbad]: [None] when the
    catalogue has no match, else [PMRA] and [PMDEC] of the first row of
    the answer. *)
Definition updatePM (simbad : pyvalue F -> option (F * F))
    (source : pyvalue F) : M F unit :=
  match simbad source with
  | None => emit (SimbadNotFound source)
  | Some result_table =>
      let* _ := emit (SimbadFound (fst result_table) (snd result_table)) in
      (* Convert to rad/s *)
      let newpm := to_rad_per_s result_table in
      let* t := get_ms in
      let names := map s_NAME (SOURCE t) in
      let sid := np.where_ (map (name_is source) names) in
      let* sid00 := lift (np.item sid 0) in
      let* stored := lift (np.item (map s_PROPER_MOTION (SOURCE t)) sid00) in
      let pm := to_mas_per_yr stored in
      let* _ := emit (CurrentPM (fst pm) (snd pm)) in
      let* _ := putcell_PROPER_MOTION sid newpm in
      emit Updated
  end.

(** *** correctForPM (lines 54-109) *)

(** Lines 61-67: the field identifiers. *)
Definition select_fieldid (names : list string) (field : pyvalue F)
    : np.ndarray :=
  match field with
  | Scalar (PyStr _) => np.Ints (np.where_ (map (name_is field) names))
  | Scalar (PyInt n) => np.Ints [n]
  | _ => np.array field
  end.

(** The loops of lines 80-83 and 86-90: for [i] in [range(len(seconds))],
    [seconds[i] = f(times[i])].  [seconds] is an integer array, so the
    float stored in it is converted; a store that raises ends the loop. *)
Fixpoint fill_range (f : F -> F) (times : list F) (range : list nat)
    (seconds : list Z) : result (list Z) :=
  match range with
  | [] => Ok seconds
  | i :: range' =>
      match times !! i with
      | Some timestamp =>
          match to_int64 (f timestamp) with
          | Ok s => fill_range f times range' (<[i := s]> seconds)
          | Raise e => Raise e
          end
      | None => Raise IndexError
      end
  end.

Definition fill (f : F -> F) (times : list F) (seconds : list Z)
    : result (list Z) :=
  fill_range f times (seq 0 (length seconds)) seconds.

(** Lines 78-93: the seconds between the observation and the new time,
    one entry per selected field.  ([yrs], computed and never used in
    the source, is left out.) *)
Definition elapsed_seconds (fieldid : np.ndarray) (times : list F)
    (years : F) (newtime : pyscalar F) : result (list Z) :=
  let seconds := np.zeros_like fieldid in
  match newtime with
  | PyFloat newtime =>
      fill (fun timestamp => (newtime - timestamp)%f64) times seconds
  | _ =>
      if feqb years (of_int 0) then
        let j2000 := of_int 4453401600 in
        fill (fun timestamp => (timestamp - j2000)%f64) times seconds
      else
        (* seconds[:] = years*SECONDS_PER_YEAR *)
        match to_int64 (years * SECONDS_PER_YEAR)%f64 with
        | Ok s => Ok (map (fun _ => s) seconds)
        | Raise e => Raise e
        end
  end.

(** Line 101. *)
Definition new_dec (direction properMotion : F * F) (seconds_i : Z) : F :=
  (snd direction + snd properMotion * of_int seconds_i)%f64.

(** Line 102. *)
Definition new_ra (direction properMotion : F * F) (seconds_i : Z)
    (new_dec : F) : F :=
  (fst direction + fst properMotion * of_int seconds_i / np_cos new_dec)%f64.

(** Lines 101-103. *)
Definition new_direction (direction properMotion : F * F) (seconds_i : Z)
    : F * F :=
  let nd := new_dec direction properMotion seconds_i in
  let nr := new_ra direction properMotion seconds_i nd in
  (nr, nd).

(** Lines 100-104, the body of the loop over the three columns. *)
Definition update_cell (properMotion : F * F) (seconds : list Z) (i j : Z)
    (direct : role) : M F unit :=
  let* direction := getcell direct j in
  let* seconds_i := lift (np.item seconds i) in
  putcell direct j (new_direction direction properMotion seconds_i).

(** Lines 98-105, the body of the loop over [enumerate(fieldid)]; the
    variable carried is [foundSource]. *)
Definition update_field (properMotion : F * F) (seconds : list Z)
    (ij : Z * Z) (foundSource : Z) : M F Z :=
  let* _ := emit (Calculating (snd ij)) in
  let* _ := for_each (fun direct (_ : unit) =>
                        update_cell properMotion seconds (fst ij) (snd ij) direct)
                     [REFERENCE_DIR; PHASE_DIR; DELAY_DIR] tt in
  ret 1.

Definition correctForPM_body (simbad : pyvalue F -> option (F * F))
    (field : pyvalue F) (years : F) (newtime : pyscalar F) (updatepm : bool)
    : M F unit :=
  let* _ := (if updatepm then updatePM simbad field else ret tt) in
  (* Check if field is a name or ID *)
  let* t := get_ms in
  let fieldid := select_fieldid (map f_NAME (FIELD t)) field in
  let* sources := lift (np.take (map f_SOURCE_ID (FIELD t)) fieldid) in
  let* times := lift (np.take (map f_TIME (FIELD t)) fieldid) in
  (* Get the proper motion from the source table using the first
     instance of the source *)
  let sourceids := map s_SOURCE_ID (SOURCE t) in
  let* sources0 := lift (np.item sources 0) in
  let* firstinst :=
    lift (np.item (np.where_ (map (Z.eqb sources0) sourceids)) 0) in
  let* properMotion :=
    lift (np.item (map s_PROPER_MOTION (SOURCE t)) firstinst) in
  (* Determine the difference in seconds between original observation
     and new time *)
  let* seconds := lift (elapsed_seconds fieldid times years newtime) in
  (* Update the coordinates for each field. *)
  let* foundSource :=
    for_each (update_field properMotion seconds)
             (enumerate (np.entries fieldid)) 0 in
  if foundSource =? 0 then emit (DidNotFind field) else ret tt.

(** The call: the input is duplicated, and everything after works on
    the duplicate. *)
Definition correctForPM (simbad : pyvalue F -> option (F * F)) (inms : ms F)
    (field : pyvalue F) (years : F) (newtime : pyscalar F) (updatepm : bool)
    : result unit * state F :=
  correctForPM_body simbad field years newtime updatepm
    {| outms := inms; log := [] |}.

End Code.

(** ** Two implementations of the float interface *)

(** *** Exact arithmetic on the real numbers *)

(** The integers an [int64] holds. *)
Definition in_int64 (z : Z) : bool := (- 2 ^ 63 <=? z) && (z <? 2 ^ 63).

(** Rounding toward zero. *)
Definition Rtrunc (x : R) : Z :=
  if Rle_dec 0 x then Int_part x else (- Int_part (- x))%Z.

(** A real number stored into an [int64] array: its whole part, which
    has to be an [int64]. *)
Definition real_to_int64 (x : R) : result Z :=
  if in_int64 (Rtrunc x) then Ok (Rtrunc x) else Raise OverflowError.

#[export] Instance exact : Float64 R := {|
  fadd := Rplus;
  fsub := Rminus;
  fmul := Rmult;
  fdiv := Rdiv;
  feqb := fun a b => if Req_dec_T a b then true else false;
  of_int := IZR;
  to_int64 := real_to_int64;
  lit_206264_80624709636 := 206264.80624709636%R
|}.

#[export] Instance exact_cos : Cosine R := cos.

(** *** IEEE 754 binary64, the arithmetic Python runs *)

(** [int64] to [float64]: to the nearest float. *)
Definition float_of_int (z : Z) : float :=
  match z with
  | Z0 => 0%float
  | Zpos _ => PrimFloat.of_uint63 (Uint63.of_Z z)
  | Zneg p =>
      if (z =? - 2 ^ 63)%Z then (-9223372036854775808)%float
      else (- PrimFloat.of_uint63 (Uint63.of_Z (Zpos p)))%float
  end.

(** A [float64] stored into an [int64] array (lines 83, 90 and 93).  The
    float is first made a Python [int]: its fraction is dropped, a NaN
    raises [ValueError] and an infinity [OverflowError]; the [int] then
    has to fit the array's element, or [OverflowError] is raised.  A
    finite float is [(-1)^s * m * 2^e]. *)
Definition float_to_int64 (x : float) : result Z :=
  match Prim2SF x with
  | S754_zero _ => Ok 0
  | S754_finite s m e =>
      let a := if (0 <=? e)%Z then Z.shiftl (Zpos m) e
               else Z.shiftr (Zpos m) (- e) in
      let v := if s then (- a)%Z else a in
      if in_int64 v then Ok v else Raise OverflowError
  | S754_infinity _ => Raise OverflowError
  | S754_nan => Raise ValueError
  end.

#[export] Instance binary64 : Float64 float := {|
  fadd := PrimFloat.add;
  fsub := PrimFloat.sub;
  fmul := PrimFloat.mul;
  fdiv := PrimFloat.div;
  feqb := PrimFloat.eqb;
  of_int := float_of_int;
  to_int64 := float_to_int64;
  lit_206264_80624709636 := 206264.80624709636%float
|}.

(** Two different binary64 values are not equal. *)
Ltac float_neq H :=
  apply (f_equal Prim2SF) in H; vm_compute in H; discriminate H.

(** ** The vocabulary of the properties *)

Section Vocabulary.

Context {F : Type} {f64 : Float64 F} {cosine : Cosine F}.

(** A relation between the state before and the state after that every
    step of a computation keeps, whatever the outcome. *)
Definition keeps {A} (P : state F -> state F -> Prop) (m : M F A) : Prop :=
  forall s r s', m s = (r, s') -> P s s'.

(** The float a mode computes for a field observed at [timestamp]. *)
Definition elapsed_expr (years : F) (newtime : pyscalar F) (timestamp : F) : F :=
  match newtime with
  | PyFloat newtime => (newtime - timestamp)%f64
  | _ =>
      if feqb years (of_int 0)
      then (timestamp - of_int 4453401600)%f64
      else (years * SECONDS_PER_YEAR)%f64
  end.

(** What the array entry of that field holds, if the store succeeds. *)
Definition elapsed_of (years : F) (newtime : pyscalar F) (timestamp : F)
    : result Z :=
  to_int64 (elapsed_expr years newtime timestamp).

(** The stores of a loop over [times], in order: the first that raises
    ends it. *)
Fixpoint store_all (f : F -> F) (times : list F) : result (list Z) :=
  match times with
  | [] => Ok []
  | timestamp :: times' =>
      match to_int64 (f timestamp) with
      | Ok s =>
          match store_all f times' with
          | Ok l => Ok (s :: l)
          | Raise e => Raise e
          end
      | Raise e => Raise e
      end
  end.

(** The rows of SOURCE that bear the queried name. *)
Definition rows_named (source : pyvalue F) (t : ms F) : list Z :=
  np.where_ (map (name_is source) (map s_NAME (SOURCE t))).

(** [field] is a name, an integer or a collection of integers. *)
Definition is_int (v : pyscalar F) : bool :=
  match v with PyInt _ => true | _ => false end.

Definition conforming (field : pyvalue F) : bool :=
  match field with
  | Scalar (PyStr _) => true
  | Scalar (PyInt _) => true
  | Scalar _ => false
  | Seq l => forallb is_int l
  end.

(** What the catalogue step prints and writes. *)
Definition sync_event (e : event F) : Prop :=
  match e with
  | SimbadNotFound _ | SimbadFound _ _ | CurrentPM _ _ | Updated | PutPM _ _ => True
  | Calculating _ | DidNotFind _ | PutDir _ _ _ => False
  end.

(** Two FIELD rows that agree outside the three direction columns. *)
Definition same_but_dirs (r r' : field_row F) : Prop :=
  f_NAME r' = f_NAME r /\ f_SOURCE_ID r' = f_SOURCE_ID r /\
  f_TIME r' = f_TIME r /\ f_other r' = f_other r.

(** Two SOURCE rows that agree outside PROPER_MOTION. *)
Definition same_but_pm (r r' : source_row F) : Prop :=
  s_NAME r' = s_NAME r /\ s_SOURCE_ID r' = s_SOURCE_ID r /\
  s_other r' = s_other r.

(** The events allowed when [ids] are the selected fields and [pmw] is
    the proper motion the catalogue step may store (if any). *)
Definition permitted (ids : list Z) (pmw : option (F * F)) (e : event F)
    : Prop :=
  match e with
  | PutDir _ j _ => j ∈ ids
  | PutPM _ v => pmw = Some v
  | _ => True
  end.

(** [s'] differs from [s] at most in the direction cells of the rows
    [ids] of FIELD and, when [pmw] is a value, in the PROPER_MOTION cells
    of the SOURCE rows named [source]; the log has only grown, by
    permitted events. *)
Record frame (ids : list Z) (source : pyvalue F) (pmw : option (F * F))
    (s s' : state F) : Prop := {
  frame_FIELD_length :
    length (FIELD (outms s')) = length (FIELD (outms s));
  frame_FIELD : forall (k : nat) r r',
    FIELD (outms s) !! k = Some r -> FIELD (outms s') !! k = Some r' ->
    same_but_dirs r r' /\ (Z.of_nat k ∉ ids -> r' = r);
  frame_SOURCE_length :
    length (SOURCE (outms s')) = length (SOURCE (outms s));
  frame_SOURCE : forall (k : nat) r r',
    SOURCE (outms s) !! k = Some r -> SOURCE (outms s') !! k = Some r' ->
    same_but_pm r r' /\
    (pmw = None \/ name_is source (s_NAME r) = false -> r' = r);
  frame_log :
    exists evs, log s' = log s ++ evs /\ Forall (permitted ids pmw) evs
}.

(** The field identifiers of an invocation, read off the input. *)
Definition selected (inms : ms F) (field : pyvalue F) : list Z :=
  np.entries (select_fieldid (map f_NAME (FIELD inms)) field).

(** The proper motion the catalogue step stores, if it stores one. *)
Definition fetched (simbad : pyvalue F -> option (F * F)) (field : pyvalue F)
    (updatepm : bool) : option (F * F) :=
  if updatepm then option_map to_rad_per_s (simbad field) else None.

(** A FIELD row after the correction of its three directions. *)
Definition corrected_row (pm : F * F) (t : Z) (r : field_row F)
    : field_row F :=
  {| f_NAME := f_NAME r; f_SOURCE_ID := f_SOURCE_ID r; f_TIME := f_TIME r;
     f_REFERENCE_DIR := new_direction (f_REFERENCE_DIR r) pm t;
     f_PHASE_DIR := new_direction (f_PHASE_DIR r) pm t;
     f_DELAY_DIR := new_direction (f_DELAY_DIR r) pm t;
     f_other := f_other r |}.

(** The elapsed time as the specification words it (section 4.2 and
    testable property 1): an explicit target epoch wins, then a non-zero
    year offset, then the default.  To be compared with
    [elapsed_seconds]. *)
Definition spec_elapsed (years : F) (newtime : pyscalar F) (T : F)
    : option F :=
  match newtime with
  | PyFloat E => Some (E - T)%f64
  | PyInt E => Some (of_int E - T)%f64
  | PyStr _ => None
  | PyNone =>
      if feqb years (of_int 0) then Some (T - of_int 4453401600)%f64
      else Some (years * of_int 31556925)%f64
  end.

(** The code yields, for every selected field, the elapsed time the
    specification words. *)
Definition agrees_with_spec (fieldid : np.ndarray) (times : list F)
    (years : F) (newtime : pyscalar F) : Prop :=
  exists seconds,
    elapsed_seconds fieldid times years newtime = Ok seconds /\
    Forall2 (fun s T => spec_elapsed years newtime T = Some (of_int s))
            seconds times.

(** The change of one direction column of a row: new minus old, in
    right ascension and in declination. *)
Definition delta (r r' : field_row F) (direct : role) : F * F :=
  ((fst (get_dir direct r') - fst (get_dir direct r))%f64,
   (snd (get_dir direct r') - snd (get_dir direct r))%f64).

(** FIELD after the loop over [enumerate(fieldid)]: the rows corrected
    one after the other, each with its own elapsed time (a row selected
    twice is corrected twice). *)
Definition corrected_rows (pm : F * F) (seconds : list Z) (ids : list Z)
    (t : list (field_row F)) : list (field_row F) :=
  foldl (fun tbl sj => alter (corrected_row pm (fst sj)) (Z.to_nat (snd sj)) tbl)
        t (zip seconds ids).

(** What the update loop prints and writes. *)
Definition loop_event (e : event F) : Prop :=
  match e with
  | Calculating _ | PutDir _ _ _ => True
  | _ => False
  end.

(** The log has grown by events of one kind. *)
Definition grows (Q : event F -> Prop) (s s' : state F) : Prop :=
  exists evs, log s' = log s ++ evs /\ Forall Q evs.

End Vocabulary.

(** ** Truncation, on the value of a binary64 number *)

(** [s] is the float [x] with its fraction dropped: [x] is finite, [s]
    has the sign of [x], and [|s| <= |x| < |s| + 1].  A finite float
    other than zero is [(-1)^sg * m * 2^e]; the inequalities are between
    integers, both sides scaled by [2^(-e)] when [e] is negative. *)
Definition truncates (x : float) (s : Z) : Prop :=
  match Prim2SF x with
  | S754_zero _ => s = 0
  | S754_finite sg m e =>
      (if sg then s <= 0 else 0 <= s) /\
      Z.abs s * 2 ^ Z.max (- e) 0 <= Zpos m * 2 ^ Z.max e 0
        < (Z.abs s + 1) * 2 ^ Z.max (- e) 0
  | _ => False
  end.

(** ** A measurement set to run the model on *)

(** One calibrator field and two fields on HR 8799, with directions in
    radians and proper motions in radians per second. *)
Definition example_ms : ms R := {|
  FIELD := [
    {| f_NAME := "J2253+1608"; f_SOURCE_ID := 0; f_TIME := 4900000000;
       f_REFERENCE_DIR := (5.99, 0.283); f_PHASE_DIR := (5.99, 0.283);
       f_DELAY_DIR := (5.99, 0.283); f_other := [("CODE", "none")] |};
    {| f_NAME := "hr8799"; f_SOURCE_ID := 1; f_TIME := 4900000600.5;
       f_REFERENCE_DIR := (6.04, 0.369); f_PHASE_DIR := (6.04, 0.369);
       f_DELAY_DIR := (6.04, 0.369); f_other := [("CODE", "none")] |};
    {| f_NAME := "hr8799"; f_SOURCE_ID := 1; f_TIME := 4900001200.25;
       f_REFERENCE_DIR := (6.04, 0.369); f_PHASE_DIR := (6.04, 0.369);
       f_DELAY_DIR := (6.04, 0.369); f_other := [("CODE", "none")] |}
  ];
  SOURCE := [
    {| s_NAME := "J2253+1608"; s_SOURCE_ID := 0;
       s_PROPER_MOTION := (0, 0); s_other := [("CODE", "none")] |};
    {| s_NAME := "hr8799"; s_SOURCE_ID := 1;
       s_PROPER_MOTION := (1.66e-14, -7.6e-15);
       s_other := [("CODE", "none")] |}
  ]
|}%R%string.

(** A catalogue that knows HR 8799 under two spellings (proper motion in
    milliarcseconds per year). *)
Definition example_simbad {F} (pm : F * F) (source : pyvalue F)
    : option (F * F) :=
  match source with
  | Scalar (PyStr "hr8799") | Scalar (PyStr "HR 8799") => Some pm
  | _ => None
  end.

(** The same SOURCE table on binary64. *)
Definition example_ms64 : ms float := {|
  FIELD := [];
  SOURCE := [
    {| s_NAME := "J2253+1608"; s_SOURCE_ID := 0;
       s_PROPER_MOTION := (0, 0); s_other := [("CODE", "none")] |};
    {| s_NAME := "hr8799"; s_SOURCE_ID := 1;
       s_PROPER_MOTION := (1.66e-14, -7.6e-15);
       s_other := [("CODE", "none")] |}
  ]
|}%float%string.

(** A field whose phase centre lies one radian north of its reference
    direction. *)
Definition offset_row : field_row R := {|
  f_NAME := "hr8799"; f_SOURCE_ID := 0; f_TIME := 4900000000;
  f_REFERENCE_DIR := (1, 0); f_PHASE_DIR := (1, 1); f_DELAY_DIR := (1, 0);
  f_other := []
|}%R%string.

(** The TIME column of three fields, on binary64. *)
Definition times3 : list float :=
  [4900000000.25%float; 4900000100.75%float; 4899999999.5%float].

(** A measurement set whose only field refers to a source (7) that the
    SOURCE table does not list. *)
Definition orphan_ms : ms R := {|
  FIELD := [
    {| f_NAME := "hr8799"; f_SOURCE_ID := 7; f_TIME := 4900000600.5;
       f_REFERENCE_DIR := (6.04, 0.369); f_PHASE_DIR := (6.04, 0.369);
       f_DELAY_DIR := (6.04, 0.369); f_other := [] |}
  ];
  SOURCE := [
    {| s_NAME := "hr8799"; s_SOURCE_ID := 0;
       s_PROPER_MOTION := (1.66e-14, -7.6e-15); s_other := [] |}
  ]
|}%R%string.

(** * Properties *)

(** ** The model at work on binary64 *)

Example float_to_int64_examples :
  map float_to_int64
      [15778462.5; -2.75; 0.999; -0.5; 3; -9223372036854775808;
       9223372036854775808; 1e30; infinity; neg_infinity; nan]%float
  = [Ok 15778462; Ok (-2); Ok 0; Ok 0; Ok 3; Ok (- 2 ^ 63);
     Raise OverflowError; Raise OverflowError; Raise OverflowError;
     Raise OverflowError; Raise ValueError].
Proof. vm_compute. reflexivity. Qed.

Example float_of_int_examples :
  map float_of_int [0; 1000; 31556925; 4453401600; -7]
  = [0; 1000; 31556925; 4453401600; -7]%float.
Proof. vm_compute. reflexivity. Qed.

Example elapsed_newtime_float :
  elapsed_seconds (np.Ints [0; 1; 2]) times3 0%float (PyFloat 5000000000.5%float)
  = Ok [100000000; 99999899; 100000001].
Proof. vm_compute. reflexivity. Qed.

Example elapsed_default :
  elapsed_seconds (np.Ints [0; 1; 2]) times3 0%float PyNone
  = Ok [446598400; 446598500; 446598399].
Proof. vm_compute. reflexivity. Qed.

Example elapsed_years :
  elapsed_seconds (np.Ints [0; 1; 2]) times3 2.5%float PyNone
  = Ok [78892312; 78892312; 78892312].
Proof. vm_compute. reflexivity. Qed.

(** A target epoch that is not a number, and a year offset of 1e30: the
    store raises. *)
Example elapsed_faults :
  elapsed_seconds (np.Ints [0; 1; 2]) times3 0%float (PyFloat nan)
  = Raise ValueError /\
  elapsed_seconds (np.Ints [0; 1; 2]) times3 1e30%float PyNone
  = Raise OverflowError /\
  elapsed_seconds (np.Ints [0]) [infinity] 0%float PyNone
  = Raise OverflowError.
Proof. vm_compute. repeat split. Qed.

Example select_examples :
  map (select_fieldid (F := float) ["a"; "b"; "a"]%string)
      [Scalar (PyStr "a"); Scalar (PyStr "c"); Scalar (PyInt 2);
       Seq [PyInt 2; PyInt 0]; Seq [PyInt 2; PyFloat 0.5%float];
       Seq [PyStr "a"]; Scalar (PyFloat 1%float); Scalar PyNone; Seq []]
  = [np.Ints [0; 2]; np.Ints []; np.Ints [2]; np.Ints [2; 0];
     np.NonIndex float64; np.NonIndex str_; np.NonIndex float64;
     np.NonIndex object_; np.NonIndex float64].
Proof. vm_compute. reflexivity. Qed.

(** ** Facts about the numpy operations *)

Section NumpyFacts.

Context {A : Type}.
Implicit Types (col : list A) (mask : list bool) (idx : list Z).

Lemma item_lookup col (k : nat) (a : A) :
  col !! k = Some a -> np.item col (Z.of_nat k) = Ok a.
Proof.
  intros Hk. pose proof (lookup_lt_Some _ _ _ Hk) as Hlt.
  unfold np.item.
  replace (Z.of_nat k <? 0) with false by lia.
  replace ((0 <=? Z.of_nat k) && (Z.of_nat k <? Z.of_nat (length col)))
    with true by lia.
  now rewrite Nat2Z.id, Hk.
Qed.

Lemma item_head (a : A) col : np.item (a :: col) 0 = Ok a.
Proof. now apply (item_lookup (a :: col) 0). Qed.

Lemma item_Ok_inv col (i : Z) (a : A) :
  np.item col i = Ok a ->
  exists k : nat, col !! k = Some a /\
    Z.of_nat k = (if i <? 0 then i + Z.of_nat (length col) else i).
Proof.
  unfold np.item. intros H.
  destruct ((0 <=? _) && _) eqn:Hin; [|discriminate].
  destruct (col !! _) as [a'|] eqn:Hk; [|discriminate].
  injection H as ->. eexists; split; [exact Hk|].
  apply andb_prop in Hin as [? ?]. lia.
Qed.

Lemma item_nil (i : Z) : np.item (@nil A) i = Raise IndexError.
Proof.
  unfold np.item; simpl. destruct (i <? 0) eqn:?;
    destruct ((0 <=? _) && _) eqn:Hin; try reflexivity;
    apply andb_prop in Hin as [? ?]; lia.
Qed.

Lemma take_ints_length col idx (l : list A) :
  np.take_ints col idx = Ok l -> length l = length idx.
Proof.
  revert l. induction idx as [|i idx IH]; intros l; simpl.
  - now intros [= <-].
  - destruct (np.item col i); [|discriminate].
    destruct (np.take_ints col idx); [|discriminate].
    intros [= <-]. simpl. f_equal. now apply IH.
Qed.

Lemma take_Ok_inv col (a : np.ndarray) (l : list A) :
  np.take col a = Ok l ->
  exists idx, a = np.Ints idx /\ length l = length idx.
Proof.
  destruct a as [idx|d]; simpl; [|discriminate].
  intros H. exists idx. split; [reflexivity|]. eapply take_ints_length, H.
Qed.

(** Every selected index is a row of the column, counted from the start
    or from the end. *)
Lemma take_ints_in_range col idx (l : list A) :
  np.take_ints col idx = Ok l ->
  Forall (fun i => - Z.of_nat (length col) <= i < Z.of_nat (length col)) idx.
Proof.
  revert l. induction idx as [|i idx IH]; intros l; simpl; [constructor|].
  destruct (np.item col i) eqn:Hi; [|discriminate].
  destruct (np.take_ints col idx) eqn:Ht; [|discriminate].
  intros _. constructor; [|eapply IH; reflexivity].
  unfold np.item in Hi.
  destruct ((0 <=? _) && _) eqn:Hin; [|discriminate].
  apply andb_prop in Hin as [? ?]. destruct (i <? 0) eqn:?; lia.
Qed.

Lemma elem_of_where_from mask (i x : Z) :
  x ∈ np.where_from mask i <->
  exists k : nat, x = i + Z.of_nat k /\ mask !! k = Some true.
Proof.
  revert i. induction mask as [|b mask IH]; intros i; simpl.
  - split; [intros H; inversion H|intros (k & _ & H); destruct k; discriminate].
  - assert (Hrec : x ∈ np.where_from mask (i + 1) <->
              exists k : nat, x = i + Z.of_nat (S k) /\ mask !! k = Some true).
    { rewrite IH. split; intros (k & -> & Hk); exists k; (split; [lia|exact Hk]). }
    destruct b.
    + rewrite elem_of_cons, Hrec. split.
      * intros [->|(k & -> & Hk)]; [exists O; split; [lia|reflexivity]|].
        exists (S k); split; [reflexivity|exact Hk].
      * intros ([|k] & -> & Hk); [left; lia|]. right. exists k. now split.
    + rewrite Hrec. split.
      * intros (k & -> & Hk). exists (S k). now split.
      * intros ([|k] & -> & Hk); [discriminate|]. exists k. now split.
Qed.

Lemma elem_of_where mask (x : Z) :
  x ∈ np.where_ mask <-> exists k : nat, x = Z.of_nat k /\ mask !! k = Some true.
Proof. unfold np.where_. rewrite elem_of_where_from. reflexivity. Qed.

Lemma where_nil mask :
  Forall (fun b => b = false) mask -> np.where_ mask = [].
Proof.
  intros Hall. destruct (np.where_ mask) as [|x l] eqn:E; [reflexivity|].
  assert (Hx : x ∈ np.where_ mask) by (rewrite E; left).
  apply elem_of_where in Hx as (k & _ & Hk).
  rewrite Forall_lookup in Hall. specialize (Hall _ _ Hk). discriminate.
Qed.

End NumpyFacts.

(** ** The elapsed-seconds array *)

Section Elapsed.

Context {F : Type} {f64 : Float64 F}.
Implicit Types (times : list F) (seconds : list Z) (f : F -> F).

Lemma store_all_Ok f times (l : list Z) :
  store_all f times = Ok l <->
  Forall2 (fun T s => to_int64 (f T) = Ok s) times l.
Proof.
  revert l. induction times as [|T times IH]; intros l; simpl.
  - split; [intros [= <-]; constructor|intros H; inversion H; reflexivity].
  - split.
    + destruct (to_int64 (f T)) as [s|e] eqn:HT; [|discriminate].
      destruct (store_all f times) as [l'|e]; [|discriminate].
      intros [= <-]. constructor; [exact HT|]. now apply IH.
    + intros H. apply Forall2_cons_inv_l in H as (s & l' & HT & Hl & ->).
      rewrite HT. apply IH in Hl. now rewrite Hl.
Qed.

Lemma store_all_Raise f times (e : exn) :
  store_all f times = Raise e ->
  exists T, T ∈ times /\ to_int64 (f T) = Raise e.
Proof.
  induction times as [|T times IH]; simpl; [discriminate|].
  destruct (to_int64 (f T)) as [s|e'] eqn:HT.
  - destruct (store_all f times) as [l'|e']; [discriminate|].
    intros [= <-]. destruct (IH eq_refl) as (T' & Hin & HT').
    exists T'. split; [now right|exact HT'].
  - intros [= <-]. exists T. split; [left|exact HT].
Qed.

Lemma store_all_length f times (l : list Z) :
  store_all f times = Ok l -> length l = length times.
Proof.
  intros H. apply store_all_Ok in H. symmetry. eapply Forall2_length, H.
Qed.

(** Every field's value converts: the stores all succeed. *)
Lemma store_all_total f times :
  Forall (fun T => exists s, to_int64 (f T) = Ok s) times ->
  exists l, store_all f times = Ok l.
Proof.
  induction times as [|T times IH]; intros Hall; simpl; [now eexists|].
  apply Forall_cons in Hall as [(s & ->) Hall].
  destruct (IH Hall) as (l & ->). now eexists.
Qed.

(** The same value stored for every field. *)
Lemma store_all_const (c : F) times :
  store_all (fun _ => c) times
  = match times, to_int64 c with
    | [], _ => Ok []
    | _ :: _, Ok s => Ok (map (fun _ => s) times)
    | _ :: _, Raise e => Raise e
    end.
Proof.
  destruct times as [|T times]; [reflexivity|]. simpl.
  destruct (to_int64 c) as [s|e] eqn:Hc; [|reflexivity].
  assert (H : store_all (fun _ => c) times = Ok (map (fun _ => s) times)).
  { clear T. induction times as [|T times IH]; [reflexivity|]. simpl.
    now rewrite Hc, IH. }
  now rewrite H.
Qed.

(** The loop invariant of [fill_range]: with the entries before [k]
    written, the loop over [k .. k+m-1] performs the stores of the fields
    from [k] on and keeps what was written. *)
Lemma fill_range_store_all f times (m k : nat) seconds :
  (k + m)%nat = length times ->
  length seconds = length times ->
  fill_range f times (seq k m) seconds
  = match store_all f (drop k times) with
    | Ok l => Ok (take k seconds ++ l)
    | Raise e => Raise e
    end.
Proof.
  revert k seconds. induction m as [|m IH]; intros k seconds Hk Hs; simpl.
  - rewrite drop_ge by lia. simpl.
    now rewrite app_nil_r, take_ge by lia.
  - destruct (lookup_lt_is_Some_2 times k ltac:(lia)) as [T HT].
    rewrite HT, (drop_S _ _ _ HT). simpl.
    destruct (to_int64 (f T)) as [s|e]; [|reflexivity].
    rewrite IH by (rewrite ?length_insert; lia).
    destruct (store_all f (drop (S k) times)) as [l|e]; [|reflexivity].
    f_equal.
    rewrite (take_S_r (<[k:=s]> seconds) k s)
      by (apply list_lookup_insert_eq; lia).
    rewrite take_insert_ge by lia. now rewrite <- app_assoc.
Qed.

Lemma fill_store_all f times seconds :
  length seconds = length times ->
  fill f times seconds = store_all f times.
Proof.
  intros Hlen. unfold fill.
  rewrite fill_range_store_all by lia. rewrite drop_0. simpl.
  now destruct (store_all f times).
Qed.

(** The array of elapsed seconds is the stores of the mode's value, one
    per selected field, in order. *)
Lemma elapsed_seconds_store_all (ids : list Z) times years newtime :
  length times = length ids -> times <> [] ->
  elapsed_seconds (np.Ints ids) times years newtime
  = store_all (elapsed_expr years newtime) times.
Proof.
  intros Hlen Hne.
  assert (Hz : length (np.zeros_like (np.Ints ids)) = length times)
    by (unfold np.zeros_like; simpl; now rewrite length_replicate).
  assert (Hy : forall s : Z,
             map (fun _ : Z => s) (np.zeros_like (np.Ints ids))
             = map (fun _ : F => s) times).
  { intros s. unfold np.zeros_like. simpl. rewrite <- Hlen. clear.
    induction times; simpl; congruence. }
  unfold elapsed_seconds, elapsed_expr.
  destruct newtime as [n|E|str|]; [|now apply fill_store_all| |];
    (destruct (feqb years (of_int 0)); [now apply fill_store_all|]);
    rewrite store_all_const; destruct times as [|T times]; try congruence;
    (destruct (to_int64 _); [now rewrite Hy|reflexivity]).
Qed.

Lemma elapsed_seconds_length (ids : list Z) times years newtime seconds :
  length times = length ids ->
  elapsed_seconds (np.Ints ids) times years newtime = Ok seconds ->
  length seconds = length ids.
Proof.
  intros Hlen.
  assert (Hz : length (np.zeros_like (np.Ints ids)) = length times)
    by (unfold np.zeros_like; simpl; now rewrite length_replicate).
  assert (Hfill : forall f, fill f times (np.zeros_like (np.Ints ids)) = Ok seconds ->
                            length seconds = length ids).
  { intros f. rewrite fill_store_all by exact Hz. intros H.
    apply store_all_length in H. lia. }
  unfold elapsed_seconds.
  destruct newtime as [n|E|str|]; [|now apply Hfill| |];
    (destruct (feqb years (of_int 0)); [now apply Hfill|]);
    (destruct (to_int64 _); [|discriminate]); intros [= <-];
    rewrite length_map; lia.
Qed.

(** The two outcomes of [elapsed_seconds] on a selection that indexes the
    TIME column: the array of the converted values, or the exception of
    the first store that raises. *)
Lemma elapsed_seconds_outcome (ids : list Z) times years newtime :
  length times = length ids -> times <> [] ->
  match elapsed_seconds (np.Ints ids) times years newtime with
  | Ok seconds =>
      Forall2 (fun T s => elapsed_of years newtime T = Ok s) times seconds
  | Raise e => exists T, T ∈ times /\ elapsed_of years newtime T = Raise e
  end.
Proof.
  intros Hlen Hne. rewrite elapsed_seconds_store_all by assumption.
  destruct (store_all _ times) as [l|e] eqn:H.
  - now apply store_all_Ok in H.
  - now apply store_all_Raise in H.
Qed.

(** If the value of every selected field converts, the array is
    produced. *)
Lemma elapsed_seconds_total (ids : list Z) times years newtime :
  length times = length ids -> times <> [] ->
  Forall (fun T => exists s, elapsed_of years newtime T = Ok s) times ->
  exists seconds,
    elapsed_seconds (np.Ints ids) times years newtime = Ok seconds /\
    Forall2 (fun T s => elapsed_of years newtime T = Ok s) times seconds.
Proof.
  intros Hlen Hne Hall. rewrite elapsed_seconds_store_all by assumption.
  destruct (store_all_total (elapsed_expr years newtime) times Hall) as (l & Hl).
  exists l. split; [exact Hl|]. now apply store_all_Ok in Hl.
Qed.

End Elapsed.

(** ** Reasoning about computations *)

Section Monad.

Context {F : Type}.

Lemma bind_Ok {A B} (m : M F A) (k : A -> M F B) s a s1 :
  m s = (Ok a, s1) -> bind m k s = k a s1.
Proof. unfold bind. now intros ->. Qed.

Lemma bind_Raise {A B} (m : M F A) (k : A -> M F B) s e s1 :
  m s = (Raise e, s1) -> bind m k s = (Raise e, s1).
Proof. unfold bind. now intros ->. Qed.

Lemma bind_inv {A B} (m : M F A) (k : A -> M F B) s r s' :
  bind m k s = (r, s') ->
  (exists a s1, m s = (Ok a, s1) /\ k a s1 = (r, s')) \/
  (exists e, m s = (Raise e, s') /\ r = Raise e).
Proof.
  unfold bind. destruct (m s) as [[a|e] s1].
  - intros H. left. now exists a, s1.
  - intros [= <- <-]. right. now exists e.
Qed.

Section Keeps.

Context (P : state F -> state F -> Prop).
Context (P_refl : forall s, P s s).
Context (P_trans : forall s1 s2 s3, P s1 s2 -> P s2 s3 -> P s1 s3).

Lemma keeps_ret {A} (a : A) : keeps P (ret a).
Proof using P_refl. intros s r s' [= <- <-]. apply P_refl. Qed.

Lemma keeps_lift {A} (x : result A) : keeps P (lift x).
Proof using P_refl. intros s r s' [= <- <-]. apply P_refl. Qed.

Lemma keeps_get_ms : keeps P get_ms.
Proof using P_refl. intros s r s' [= <- <-]. apply P_refl. Qed.

Lemma keeps_bind {A B} (m : M F A) (k : A -> M F B) :
  keeps P m -> (forall a, keeps P (k a)) -> keeps P (bind m k).
Proof using P_trans.
  intros Hm Hk s r s' H.
  apply bind_inv in H as [(a & s1 & H1 & H2)|(e & H1 & _)].
  - eapply P_trans; [eapply Hm, H1|eapply Hk, H2].
  - eapply Hm, H1.
Qed.

Lemma keeps_for_each {A S} (body : A -> S -> M F S) (l : list A) :
  (forall a acc, a ∈ l -> keeps P (body a acc)) ->
  forall acc, keeps P (for_each body l acc).
Proof using P_refl P_trans.
  induction l as [|a l IH]; intros Hbody acc; simpl.
  - apply keeps_ret.
  - apply keeps_bind.
    + apply Hbody. left.
    + intros acc'. apply IH. intros a' acc'' Hin. apply Hbody. now right.
Qed.

End Keeps.

End Monad.

(** ** Writing one value into several rows *)

Section PutRows.

Context {A : Type} (f : A -> A).
Hypothesis f_idem : forall a, f (f a) = f a.

Lemma foldl_alter_length (rows : list Z) (t : list A) :
  length (foldl (fun tbl s => alter f (Z.to_nat s) tbl) t rows) = length t.
Proof.
  revert t. induction rows as [|s rows IH]; intros t; simpl; [reflexivity|].
  now rewrite IH, length_alter.
Qed.

Lemma foldl_alter_lookup (rows : list Z) (t : list A) (k : nat) :
  foldl (fun tbl s => alter f (Z.to_nat s) tbl) t rows !! k
  = if decide (k ∈ map Z.to_nat rows) then f <$> t !! k else t !! k.
Proof using f_idem.
  revert t. induction rows as [|s rows IH]; intros t; cbn [foldl map].
  - case_decide as Hin; [inversion Hin|reflexivity].
  - rewrite IH. destruct (decide (k = Z.to_nat s)) as [->|Hne].
    + rewrite list_lookup_alter_eq.
      repeat case_decide; try reflexivity.
      * destruct (t !! Z.to_nat s); simpl; [now rewrite f_idem|reflexivity].
      * exfalso. match goal with H : _ ∉ _ :: _ |- _ => apply H; left end.
      * exfalso. match goal with H : _ ∉ _ :: _ |- _ => apply H; left end.
    + rewrite list_lookup_alter_ne by congruence.
      repeat case_decide; try reflexivity.
      * exfalso. match goal with H : _ ∉ _ :: _ |- _ => apply H; now right end.
      * exfalso.
        match goal with H : _ ∈ _ :: _ |- _ =>
          apply elem_of_cons in H as [?|?]; [congruence|tauto] end.
Qed.

End PutRows.

Lemma elem_of_to_nat_where (mask : list bool) (k : nat) :
  k ∈ map Z.to_nat (np.where_ mask) <-> mask !! k = Some true.
Proof.
  rewrite list_elem_of_In, in_map_iff. split.
  - intros (x & <- & Hx). apply list_elem_of_In, elem_of_where in Hx as (k & -> & Hk).
    now rewrite Nat2Z.id.
  - intros Hk. exists (Z.of_nat k). split; [now rewrite Nat2Z.id|].
    apply list_elem_of_In, elem_of_where. now exists k.
Qed.

(** ** The catalogue step *)

Section Sync.

Context {F : Type} {f64 : Float64 F}.
Implicit Types (st : state F) (source : pyvalue F).

Lemma rows_named_lookup source (t : ms F) (k : Z) :
  k ∈ rows_named source t ->
  exists row, SOURCE t !! Z.to_nat k = Some row /\ 0 <= k /\
              name_is source (s_NAME row) = true.
Proof.
  intros Hk. apply elem_of_where in Hk as (n & -> & Hn).
  rewrite Nat2Z.id. rewrite !list_lookup_fmap in Hn.
  destruct (SOURCE t !! n) as [row|]; [|discriminate].
  exists row. split; [reflexivity|]. split; [lia|]. now injection Hn.
Qed.

Lemma updatePM_not_found simbad source st :
  simbad source = None ->
  updatePM simbad source st
  = (Ok tt, {| outms := outms st; log := log st ++ [SimbadNotFound source] |}).
Proof. intros H. unfold updatePM. now rewrite H. Qed.

Lemma updatePM_no_row simbad source st pm :
  simbad source = Some pm ->
  rows_named source (outms st) = [] ->
  updatePM simbad source st
  = (Raise IndexError,
     {| outms := outms st; log := log st ++ [SimbadFound (fst pm) (snd pm)] |}).
Proof.
  intros H Hrows. unfold updatePM. rewrite H.
  unfold bind, emit, get_ms, lift. cbn [outms log].
  fold (rows_named source (outms st)). rewrite Hrows, item_nil. reflexivity.
Qed.

Lemma updatePM_found simbad source st pm k rest :
  simbad source = Some pm ->
  rows_named source (outms st) = k :: rest ->
  exists row,
    SOURCE (outms st) !! Z.to_nat k = Some row /\
    name_is source (s_NAME row) = true /\
    updatePM simbad source st
    = (Ok tt,
       {| outms :=
            {| FIELD := FIELD (outms st);
               SOURCE := foldl (fun tbl s => alter (set_pm (to_rad_per_s pm))
                                                   (Z.to_nat s) tbl)
                               (SOURCE (outms st)) (k :: rest) |};
          log := log st ++
                 [SimbadFound (fst pm) (snd pm);
                  CurrentPM (fst (to_mas_per_yr (s_PROPER_MOTION row)))
                            (snd (to_mas_per_yr (s_PROPER_MOTION row)));
                  PutPM (k :: rest) (to_rad_per_s pm);
                  Updated] |}).
Proof.
  intros H Hrows.
  destruct (rows_named_lookup source (outms st) k) as (row & Hrow & Hk0 & Hname).
  { rewrite Hrows. left. }
  exists row. split; [exact Hrow|]. split; [exact Hname|].
  unfold updatePM. rewrite H.
  unfold putcell_PROPER_MOTION, set_SOURCE, bind, emit, get_ms, lift.
  cbn [outms log FIELD SOURCE].
  fold (rows_named source (outms st)). rewrite Hrows.
  rewrite item_head.
  rewrite <- (Z2Nat.id k) at 1 by exact Hk0.
  rewrite (item_lookup _ (Z.to_nat k) (s_PROPER_MOTION row))
    by (rewrite list_lookup_fmap, Hrow; reflexivity).
  cbn [outms log FIELD SOURCE]. rewrite <- !app_assoc. reflexivity.
Qed.

End Sync.

(** ** What may change *)

Section Frame.

Context {F : Type} {f64 : Float64 F} {cosine : Cosine F}.
Implicit Types (st s : state F) (source field : pyvalue F).

Lemma frame_refl ids source pmw s : frame ids source pmw s s.
Proof.
  split; try reflexivity.
  - intros k r r' H1 H2. assert (r' = r) as -> by congruence.
    repeat split.
  - intros k r r' H1 H2. assert (r' = r) as -> by congruence.
    repeat split.
  - exists []. split; [now rewrite app_nil_r|constructor].
Qed.

Lemma frame_trans ids source pmw s1 s2 s3 :
  frame ids source pmw s1 s2 -> frame ids source pmw s2 s3 ->
  frame ids source pmw s1 s3.
Proof.
  intros [L1 H1 M1 S1 (e1 & E1 & P1)] [L2 H2 M2 S2 (e2 & E2 & P2)]. split.
  - congruence.
  - intros k r r'' Hr Hr''.
    destruct (lookup_lt_is_Some_2 (FIELD (outms s2)) k) as [r' Hr'].
    { rewrite L1. eapply lookup_lt_Some, Hr. }
    destruct (H1 _ _ _ Hr Hr') as ((? & ? & ? & ?) & Ha).
    destruct (H2 _ _ _ Hr' Hr'') as ((? & ? & ? & ?) & Hb).
    split; [repeat split; congruence|].
    intros Hk. rewrite (Hb Hk). apply Ha, Hk.
  - congruence.
  - intros k r r'' Hr Hr''.
    destruct (lookup_lt_is_Some_2 (SOURCE (outms s2)) k) as [r' Hr'].
    { rewrite M1. eapply lookup_lt_Some, Hr. }
    destruct (S1 _ _ _ Hr Hr') as ((Hn & ? & ?) & Ha).
    destruct (S2 _ _ _ Hr' Hr'') as ((? & ? & ?) & Hb).
    split; [repeat split; congruence|].
    intros Hk. rewrite Hb; [apply Ha, Hk|].
    destruct Hk as [?|Hk]; [now left|right; now rewrite Hn].
  - exists (e1 ++ e2). split; [now rewrite E2, E1, app_assoc|].
    apply Forall_app. now split.
Qed.

Lemma keeps_emit ids source pmw (e : event F) :
  permitted ids pmw e -> keeps (frame ids source pmw) (emit e).
Proof.
  intros He s r s' [= <- <-]. split; cbn [outms log]; try reflexivity.
  - intros k r r' H1 H2. assert (r' = r) as -> by congruence. repeat split.
  - intros k r r' H1 H2. assert (r' = r) as -> by congruence. repeat split.
  - exists [e]. split; [reflexivity|]. now constructor.
Qed.

Lemma keeps_getcell ids source pmw direct j :
  keeps (frame ids source pmw) (getcell direct j).
Proof.
  unfold getcell. apply keeps_bind; [apply frame_trans|apply keeps_get_ms, frame_refl|].
  intros t. destruct (_ && _); [|apply keeps_lift, frame_refl].
  destruct (_ !! _); [apply keeps_ret|apply keeps_lift]; apply frame_refl.
Qed.

Lemma keeps_putcell ids source pmw direct j v :
  j ∈ ids -> keeps (frame ids source pmw) (putcell direct j v).
Proof.
  intros Hj s r s'. unfold putcell, bind, get_ms, set_FIELD, emit, lift.
  cbn [outms log FIELD SOURCE].
  destruct (_ && _) eqn:Hin; intros [= <- <-]; [|apply frame_refl].
  apply andb_prop in Hin as [Hj0 _]. apply Z.leb_le in Hj0.
  split; cbn [outms log FIELD SOURCE].
  - apply length_alter.
  - intros k r0 r' H1 H2. destruct (decide (k = Z.to_nat j)) as [->|Hne].
    + rewrite list_lookup_alter_eq, H1 in H2. injection H2 as <-.
      split; [destruct direct; repeat split|].
      intros Hout. exfalso. apply Hout. now rewrite Z2Nat.id.
    + rewrite list_lookup_alter_ne in H2 by congruence.
      assert (r' = r0) as -> by congruence. repeat split.
  - reflexivity.
  - intros k r0 r' H1 H2. assert (r' = r0) as -> by congruence. repeat split.
  - exists [PutDir direct j v]. split; [reflexivity|]. now constructor.
Qed.

End Frame.

Lemma elem_of_enumerate_from {A} (n : Z) (l : list A) (i : Z) (a : A) :
  (i, a) ∈ enumerate_from n l ->
  exists k : nat, i = n + Z.of_nat k /\ l !! k = Some a.
Proof.
  revert n. induction l as [|b l IH]; intros n Hin; simpl in Hin.
  - inversion Hin.
  - apply elem_of_cons in Hin as [[= -> ->]|Hin].
    + exists O. split; [lia|reflexivity].
    + apply IH in Hin as (k & -> & Hk). exists (S k). split; [lia|exact Hk].
Qed.

Section FrameOfTheProgram.

Context {F : Type} {f64 : Float64 F} {cosine : Cosine F}.
Implicit Types (st s : state F) (source field : pyvalue F).

Lemma updatePM_cases simbad source s :
  (simbad source = None /\
   updatePM simbad source s
   = (Ok tt, {| outms := outms s; log := log s ++ [SimbadNotFound source] |}))
  \/
  (exists pm, simbad source = Some pm /\ rows_named source (outms s) = [] /\
   updatePM simbad source s
   = (Raise IndexError,
      {| outms := outms s; log := log s ++ [SimbadFound (fst pm) (snd pm)] |}))
  \/
  (exists pm row k rest,
     simbad source = Some pm /\ rows_named source (outms s) = k :: rest /\
     SOURCE (outms s) !! Z.to_nat k = Some row /\
     updatePM simbad source s
     = (Ok tt,
        {| outms :=
             {| FIELD := FIELD (outms s);
                SOURCE := foldl (fun tbl i => alter (set_pm (to_rad_per_s pm))
                                                    (Z.to_nat i) tbl)
                                (SOURCE (outms s)) (k :: rest) |};
           log := log s ++
                  [SimbadFound (fst pm) (snd pm);
                   CurrentPM (fst (to_mas_per_yr (s_PROPER_MOTION row)))
                             (snd (to_mas_per_yr (s_PROPER_MOTION row)));
                   PutPM (k :: rest) (to_rad_per_s pm);
                   Updated] |})).
Proof.
  destruct (simbad source) as [pm|] eqn:Hs.
  - right. destruct (rows_named source (outms s)) as [|k rest] eqn:Hrows.
    + left. exists pm. repeat split; try assumption.
      now apply updatePM_no_row.
    + right.
      destruct (updatePM_found simbad source s pm k rest Hs Hrows)
        as (row & Hrow & _ & Hrun).
      exists pm, row, k, rest. repeat split; assumption.
  - left. split; [reflexivity|]. now apply updatePM_not_found.
Qed.

(** [updatePM] never touches FIELD and raises nothing but an index
    error. *)
Lemma updatePM_FIELD simbad source s r s' :
  updatePM simbad source s = (r, s') ->
  FIELD (outms s') = FIELD (outms s) /\ (r = Ok tt \/ r = Raise IndexError).
Proof.
  intros Hrun.
  destruct (updatePM_cases simbad source s)
    as [(_ & H)|[(pm & _ & _ & H)|(pm & row & k & rest & _ & _ & _ & H)]];
    rewrite H in Hrun; injection Hrun as <- <-; cbn [outms FIELD]; auto.
Qed.

Lemma set_pm_idem (v : F * F) (r : source_row F) :
  set_pm v (set_pm v r) = set_pm v r.
Proof. reflexivity. Qed.

(** The SOURCE table after a successful catalogue step, row by row. *)
Lemma synced_rows_lookup source (t : ms F) (v : F * F) (k : nat) row :
  SOURCE t !! k = Some row ->
  foldl (fun tbl i => alter (set_pm v) (Z.to_nat i) tbl) (SOURCE t)
        (rows_named source t) !! k
  = Some (if name_is source (s_NAME row) then set_pm v row else row).
Proof.
  intros Hrow. rewrite foldl_alter_lookup by apply set_pm_idem.
  unfold rows_named. rewrite Hrow.
  destruct (name_is source (s_NAME row)) eqn:Hn; case_decide as Hin;
    try reflexivity; exfalso.
  - apply Hin, elem_of_to_nat_where.
    now rewrite !list_lookup_fmap, Hrow; simpl; rewrite Hn.
  - apply elem_of_to_nat_where in Hin.
    rewrite !list_lookup_fmap, Hrow in Hin. simpl in Hin. congruence.
Qed.

Lemma keeps_updatePM ids simbad source :
  keeps (frame ids source (option_map to_rad_per_s (simbad source)))
        (updatePM simbad source).
Proof.
  intros s r s' Hrun.
  destruct (updatePM_cases simbad source s)
    as [(Hs & H)|[(pm & Hs & _ & H)|(pm & row & k & rest & Hs & Hrows & _ & H)]];
    rewrite H in Hrun; apply pair_equal_spec in Hrun as [<- <-]; rewrite Hs;
    unfold option_map.
  - eapply (keeps_emit _ _ _ (SimbadNotFound source) I). reflexivity.
  - eapply (keeps_emit _ _ _ (SimbadFound _ _) I). reflexivity.
  - rewrite <- Hrows. split; cbn [outms log FIELD SOURCE].
    + reflexivity.
    + intros n r r' H1 H2. assert (r' = r) as -> by congruence. repeat split.
    + apply (foldl_alter_length (set_pm (to_rad_per_s pm))).
    + intros n r r' H1 H2.
      rewrite (synced_rows_lookup source (outms s) _ n r H1) in H2.
      injection H2 as <-.
      destruct (name_is source (s_NAME r)) eqn:Hn; [|repeat split].
      split; [repeat split|]. intros [?|?]; discriminate.
    + eexists. split; [reflexivity|]. repeat constructor.
Qed.

Lemma keeps_update_field ids source pmw properMotion seconds ij found :
  snd ij ∈ ids ->
  keeps (frame ids source pmw) (update_field properMotion seconds ij found).
Proof.
  intros Hj. unfold update_field.
  apply keeps_bind; [apply frame_trans|now apply keeps_emit|]. intros _.
  apply keeps_bind; [apply frame_trans| |intros; apply keeps_ret, frame_refl].
  apply keeps_for_each; [apply frame_refl|apply frame_trans|].
  intros direct [] _. unfold update_cell.
  apply keeps_bind; [apply frame_trans|apply keeps_getcell|]. intros d.
  apply keeps_bind; [apply frame_trans|apply keeps_lift, frame_refl|].
  intros t. now apply keeps_putcell.
Qed.

Lemma correctForPM_body_frame simbad field years newtime updatepm s r s' :
  correctForPM_body simbad field years newtime updatepm s = (r, s') ->
  frame (selected (outms s) field) field (fetched simbad field updatepm) s s'.
Proof.
  set (ids := selected (outms s) field).
  set (pmw := fetched simbad field updatepm).
  assert (Htr := frame_trans ids field pmw).
  assert (Hrf := frame_refl ids field pmw).
  unfold correctForPM_body. intros Hrun.
  assert (Hsync : forall r1 s1,
            (if updatepm then updatePM simbad field else ret tt) s = (r1, s1) ->
            frame ids field pmw s s1 /\ FIELD (outms s1) = FIELD (outms s)).
  { intros r1 s1 H1. subst pmw. unfold fetched. destruct updatepm.
    - split; [eapply keeps_updatePM, H1|eapply updatePM_FIELD, H1].
    - injection H1 as <- <-. split; [apply Hrf|reflexivity]. }
  apply bind_inv in Hrun as [([] & s1 & H1 & Hrun)|(e & H1 & _)];
    [|eapply Hsync, H1].
  destruct (Hsync _ _ H1) as [Hf1 HF]. eapply Htr; [exact Hf1|].
  apply bind_inv in Hrun as [(t & s1' & [= <- <-] & Hrun)|(e & [=] & _)].
  assert (Hids : np.entries (select_fieldid (map f_NAME (FIELD (outms s1))) field)
                 = ids) by now rewrite HF.
  revert Hrun.
  match goal with |- ?m s1 = _ -> _ =>
    enough (Hk : keeps (frame ids field pmw) m) by apply Hk end.
  repeat (apply keeps_bind; [exact Htr|apply keeps_lift, Hrf|intros ?]).
  apply keeps_bind; [exact Htr| |].
  - apply keeps_for_each; [exact Hrf|exact Htr|].
    intros [i j] found Hin. apply keeps_update_field. cbn [snd].
    rewrite Hids in Hin. unfold enumerate in Hin.
    apply elem_of_enumerate_from in Hin as (k & _ & Hk).
    eapply list_elem_of_lookup_2, Hk.
  - intros found. destruct (found =? 0).
    + now apply keeps_emit.
    + apply keeps_ret, Hrf.
Qed.

End FrameOfTheProgram.

(** ** The direction update *)

Section Directions.

Context {F : Type} {f64 : Float64 F} {cosine : Cosine F}.
Implicit Types (st : state F) (r : field_row F) (pm : F * F).

Lemma alter_as_insert {A} (f : A -> A) (l : list A) (k : nat) (a : A) :
  l !! k = Some a -> alter f k l = <[k := f a]> l.
Proof.
  intros Hk. apply list_eq. intros i. destruct (decide (i = k)) as [->|Hne].
  - rewrite list_lookup_alter_eq, Hk.
    rewrite list_lookup_insert_eq by (eapply lookup_lt_Some, Hk). reflexivity.
  - rewrite list_lookup_alter_ne, list_lookup_insert_ne by congruence.
    reflexivity.
Qed.

(** One cell: read, corrected, written back. *)
Lemma update_cell_ok pm (seconds : list Z) (i j : Z) direct st r (t : Z) :
  0 <= j -> FIELD (outms st) !! Z.to_nat j = Some r ->
  0 <= i -> seconds !! Z.to_nat i = Some t ->
  update_cell pm seconds i j direct st
  = (Ok tt,
     {| outms :=
          {| FIELD := <[Z.to_nat j :=
                         set_dir direct (new_direction (get_dir direct r) pm t) r]>
                      (FIELD (outms st));
             SOURCE := SOURCE (outms st) |};
        log := log st ++ [PutDir direct j (new_direction (get_dir direct r) pm t)] |}).
Proof.
  intros Hj Hr Hi Ht. pose proof (lookup_lt_Some _ _ _ Hr) as Hlt.
  assert (Hin : (0 <=? j) && (j <? Z.of_nat (length (FIELD (outms st)))) = true).
  { apply andb_true_intro. split; [apply Z.leb_le|apply Z.ltb_lt]; lia. }
  unfold update_cell, getcell, putcell, set_FIELD, emit, bind, get_ms, lift, ret.
  cbn [outms log FIELD SOURCE]. rewrite Hin, Hr.
  rewrite <- (Z2Nat.id i) at 1 by exact Hi.
  rewrite (item_lookup _ _ _ Ht). cbn [outms log FIELD SOURCE]. rewrite Hin.
  now rewrite (alter_as_insert _ _ _ _ Hr).
Qed.

Lemma get_dir_corrected_row direct pm t r :
  get_dir direct (corrected_row pm t r) = new_direction (get_dir direct r) pm t.
Proof. now destruct direct. Qed.

(** One pass of the loop over the selected fields. *)
Lemma update_field_ok pm (seconds : list Z) (i j found : Z) st r (t : Z) :
  0 <= j -> FIELD (outms st) !! Z.to_nat j = Some r ->
  0 <= i -> seconds !! Z.to_nat i = Some t ->
  update_field pm seconds (i, j) found st
  = (Ok 1,
     {| outms :=
          {| FIELD := <[Z.to_nat j := corrected_row pm t r]> (FIELD (outms st));
             SOURCE := SOURCE (outms st) |};
        log := log st ++
               [Calculating j;
                PutDir REFERENCE_DIR j (new_direction (f_REFERENCE_DIR r) pm t);
                PutDir PHASE_DIR j (new_direction (f_PHASE_DIR r) pm t);
                PutDir DELAY_DIR j (new_direction (f_DELAY_DIR r) pm t)] |}).
Proof.
  intros Hj Hr Hi Ht. pose proof (lookup_lt_Some _ _ _ Hr) as Hlt.
  unfold update_field. cbn [fst snd for_each].
  erewrite bind_Ok by reflexivity.
  erewrite bind_Ok; [reflexivity|].
  erewrite bind_Ok by (apply update_cell_ok; eassumption).
  erewrite bind_Ok.
  2:{ apply update_cell_ok; try eassumption. cbn [outms FIELD].
      apply list_lookup_insert_eq, Hlt. }
  erewrite bind_Ok.
  2:{ apply update_cell_ok; try eassumption. cbn [outms FIELD].
      apply list_lookup_insert_eq. now rewrite length_insert. }
  unfold ret. cbn [outms log FIELD SOURCE get_dir set_dir f_NAME f_SOURCE_ID
                   f_TIME f_REFERENCE_DIR f_PHASE_DIR f_DELAY_DIR f_other].
  rewrite !list_insert_insert_eq, <- !app_assoc. reflexivity.
Qed.

End Directions.

(** ** Selection *)

Section Selection.

Context {F : Type} {f64 : Float64 F} {cosine : Cosine F}.
Implicit Types (st s : state F) (field : pyvalue F).

Lemma updatePM_log simbad field s r s' :
  updatePM simbad field s = (r, s') ->
  exists evs, log s' = log s ++ evs /\ Forall sync_event evs.
Proof.
  intros Hrun.
  destruct (updatePM_cases simbad field s)
    as [(_ & H)|[(pm & _ & _ & H)|(pm & row & k & rest & _ & _ & _ & H)]];
    rewrite H in Hrun; apply pair_equal_spec in Hrun as [<- <-];
    cbn [log]; eexists; (split; [reflexivity|]); repeat constructor.
Qed.

Lemma promote_int64 (a b : dtype) :
  np.promote a b = int64 -> a = int64 /\ b = int64.
Proof. destruct a, b; simpl; intros H; try discriminate; now split. Qed.

Lemma seq_dtype_int64 (l : list (pyscalar F)) :
  np.seq_dtype l = int64 -> forallb is_int l = true.
Proof.
  destruct l as [|v l]; [discriminate|]. unfold np.seq_dtype.
  generalize (v :: l). clear. intros l.
  induction l as [|v l IH]; simpl; [reflexivity|]. intros H.
  apply promote_int64 in H as [Hv Hl]. rewrite (IH Hl).
  destruct v; try discriminate. reflexivity.
Qed.

Lemma nonconforming_not_an_index names field :
  conforming field = false ->
  exists d, select_fieldid names field = np.NonIndex d.
Proof.
  destruct field as [[n|x|s|]|l]; simpl; try discriminate; intros H;
    try (eexists; reflexivity).
  unfold np.array. case_decide as Hd; [|eexists; reflexivity].
  apply seq_dtype_int64 in Hd. congruence.
Qed.

Lemma no_match_selects_nothing (names : list string) (name : string) :
  Forall (fun n => n <> name) names ->
  select_fieldid names (Scalar (PyStr name) : pyvalue F) = np.Ints [].
Proof.
  intros Hall. simpl. f_equal. apply where_nil.
  apply Forall_fmap. eapply Forall_impl; [exact Hall|].
  intros n Hn. simpl. now apply String.eqb_neq.
Qed.

(** When the selection yields nothing to index with, or something that
    is no index, the call ends in an index error after the catalogue
    step at the latest, with FIELD as it was copied. *)
Lemma raises_before_update simbad (inms : ms F) field years newtime updatepm :
  select_fieldid (map f_NAME (FIELD inms)) field = np.Ints [] \/
  (exists d, select_fieldid (map f_NAME (FIELD inms)) field = np.NonIndex d) ->
  exists st,
    correctForPM simbad inms field years newtime updatepm
    = (Raise IndexError, st) /\
    FIELD (outms st) = FIELD inms /\
    Forall sync_event (log st).
Proof.
  intros Hsel. unfold correctForPM, correctForPM_body.
  set (s0 := {| outms := inms; log := [] |}).
  assert (Hsync : exists r1 s1,
            (if updatepm then updatePM simbad field else ret tt) s0 = (r1, s1) /\
            FIELD (outms s1) = FIELD inms /\ Forall sync_event (log s1) /\
            (r1 = Ok tt \/ r1 = Raise IndexError)).
  { destruct updatepm.
    - destruct (updatePM simbad field s0) as [r1 s1] eqn:H1. exists r1, s1.
      destruct (updatePM_FIELD _ _ _ _ _ H1) as [HF Hr].
      destruct (updatePM_log _ _ _ _ _ H1) as (evs & Hl & Hevs).
      repeat split; try assumption. now rewrite Hl.
    - exists (Ok tt), s0. repeat split; [constructor|now left]. }
  destruct Hsync as (r1 & s1 & H1 & HF & Hlog & [->| ->]).
  - exists s1. split; [|now split].
    rewrite (bind_Ok _ _ _ _ _ H1).
    unfold bind at 1, get_ms at 1. rewrite HF.
    destruct Hsel as [->|(d & ->)]; unfold bind, lift; simpl np.take; cbv iota.
    + now rewrite item_nil.
    + reflexivity.
  - exists s1. split; [|now split]. now rewrite (bind_Raise _ _ _ _ _ H1).
Qed.

End Selection.

(** ** Selection faults (C1, C7) *)

Section SelectionClaims.

Context {F : Type} {f64 : Float64 F} {cosine : Cosine F}.

(** C1, as the code has it.  When [field] is a name that no row of the
    FIELD table bears, [np.where] yields an empty index array, the two
    columns indexed with it are empty, and [sources[0]] on line 74
    raises an index error: the call does not complete, the line "Did
    not find source" is never printed, and nothing is written to FIELD
    (no [PutDir] is logged; FIELD is as it was copied).  The catalogue
    step, if requested, has run by then. *)
Theorem selection_miss_raises (simbad : pyvalue F -> option (F * F))
    (inms : ms F) (name : string) (years : F) (newtime : pyscalar F)
    (updatepm : bool) :
  Forall (fun r => f_NAME r <> name) (FIELD inms) ->
  exists st,
    correctForPM simbad inms (Scalar (PyStr name)) years newtime updatepm
    = (Raise IndexError, st) /\
    FIELD (outms st) = FIELD inms /\
    Forall sync_event (log st).
Proof.
  intros Hnone. apply raises_before_update. left.
  apply no_match_selects_nothing. now apply Forall_fmap.
Qed.

(** C7.  When [field] is neither a name, nor an integer, nor a
    collection of integers, [np.array(field)] is an array of floats, of
    strings or of objects, and indexing the SOURCE_ID column with it on
    line 68 raises an index error: the call ends there (or in the
    catalogue step before it), with no direction written. *)
Theorem specifier_type_fault (simbad : pyvalue F -> option (F * F))
    (inms : ms F) (field : pyvalue F) (years : F) (newtime : pyscalar F)
    (updatepm : bool) :
  conforming field = false ->
  exists st,
    correctForPM simbad inms field years newtime updatepm
    = (Raise IndexError, st) /\
    FIELD (outms st) = FIELD inms /\
    Forall sync_event (log st).
Proof.
  intros Hbad. apply raises_before_update. right.
  now apply nonconforming_not_an_index.
Qed.

End SelectionClaims.

Lemma selection_miss_witness :
  exists st,
    correctForPM (example_simbad (108.3, -49.5)%R) example_ms
                 (Scalar (PyStr "hr 8799")) 0%R PyNone true
    = (Raise IndexError, st) /\
    FIELD (outms st) = FIELD example_ms /\
    Forall sync_event (log st).
Proof.
  apply selection_miss_raises.
  repeat constructor; simpl; discriminate.
Defined.

Lemma specifier_type_fault_witness :
  exists st,
    correctForPM (example_simbad (108.3, -49.5)%R) example_ms
                 (Seq [PyInt 1; PyFloat 2%R]) 0%R PyNone false
    = (Raise IndexError, st) /\
    FIELD (outms st) = FIELD example_ms /\
    Forall sync_event (log st).
Proof. apply specifier_type_fault. reflexivity. Defined.

(** ** The frame (C10) *)

Section FrameClaim.

Context {F : Type} {f64 : Float64 F} {cosine : Cosine F}.

(** C10.  Whatever the arguments and whether the call completes or
    raises: FIELD and SOURCE keep their rows; a FIELD row keeps every
    column but the three directions, and a row that is not selected
    keeps those too; a SOURCE row keeps every column but PROPER_MOTION,
    and keeps that too unless the catalogue step was requested, the
    catalogue matched and the row bears the queried name; every cell
    write logged is a direction of a selected field or the fetched
    proper motion. *)
Theorem only_directions_and_pm_written (simbad : pyvalue F -> option (F * F))
    (inms : ms F) (field : pyvalue F) (years : F) (newtime : pyscalar F)
    (updatepm : bool) :
  let ids := selected inms field in
  let st := snd (correctForPM simbad inms field years newtime updatepm) in
  (length (FIELD (outms st)) = length (FIELD inms) /\
   forall (k : nat) r r',
     FIELD inms !! k = Some r -> FIELD (outms st) !! k = Some r' ->
     same_but_dirs r r' /\ (Z.of_nat k ∉ ids -> r' = r)) /\
  (length (SOURCE (outms st)) = length (SOURCE inms) /\
   forall (k : nat) r r',
     SOURCE inms !! k = Some r -> SOURCE (outms st) !! k = Some r' ->
     same_but_pm r r' /\
     (updatepm = false \/ simbad field = None \/
      name_is field (s_NAME r) = false -> r' = r)) /\
  Forall (fun e =>
            match e with
            | PutDir _ j _ => j ∈ ids
            | PutPM _ v =>
                updatepm = true /\
                exists pm, simbad field = Some pm /\ v = to_rad_per_s pm
            | _ => True
            end) (log st).
Proof.
  intros ids st.
  destruct (correctForPM simbad inms field years newtime updatepm)
    as [r s'] eqn:Hrun.
  apply correctForPM_body_frame in Hrun as [L H M' S (evs & E & P)].
  subst st. cbn [snd outms log FIELD SOURCE] in *.
  split; [split; [exact L|exact H]|].
  split; [split; [exact M'|]|].
  - intros k r0 r' H1 H2. destruct (S _ _ _ H1 H2) as [Hs Hkeep].
    split; [exact Hs|]. intros Hc. apply Hkeep.
    unfold fetched. destruct Hc as [->|[->|Hn]]; [now left| |now right].
    left. now destruct updatepm.
  - rewrite E. simpl. eapply Forall_impl; [exact P|].
    intros [] Hp; try exact I; [exact Hp|].
    simpl in Hp. unfold fetched in Hp. destruct updatepm; [|discriminate].
    split; [reflexivity|]. destruct (simbad field) as [pm|]; [|discriminate].
    exists pm. split; [reflexivity|]. now injection Hp.
Qed.

End FrameClaim.

(** ** Elapsed time (C2, C8, C9) *)

(** On the reals the whole part is the truncation of C: the whole number
    of largest magnitude between zero and the argument, less than one
    away from it. *)
Lemma Rtrunc_spec (x : R) :
  (Rabs (IZR (Rtrunc x)) <= Rabs x /\ Rabs (x - IZR (Rtrunc x)) < 1)%R.
Proof.
  unfold Rtrunc. destruct (Rle_dec 0 x) as [Hx|Hx].
  - destruct (base_Int_part x) as [H1 H2].
    assert (0 <= IZR (Int_part x))%R.
    { apply IZR_le. apply Z.lt_succ_r. apply lt_IZR. rewrite succ_IZR. lra. }
    rewrite !Rabs_pos_eq by lra. lra.
  - destruct (base_Int_part (- x)) as [H1 H2]. rewrite opp_IZR.
    assert (0 <= IZR (Int_part (- x)))%R.
    { apply IZR_le. apply Z.lt_succ_r. apply lt_IZR. rewrite succ_IZR. lra. }
    rewrite (Rabs_left1 (- _)) by lra. rewrite (Rabs_left1 x) by lra.
    rewrite (Rabs_left1 (x - _)) by lra. lra.
Qed.

Lemma Rtrunc_IZR (z : Z) : Rtrunc (IZR z) = z.
Proof.
  unfold Rtrunc. destruct (Rle_dec 0 (IZR z)) as [Hz|Hz].
  - symmetry. apply Int_part_spec. lra.
  - rewrite <- opp_IZR. rewrite <- (Int_part_spec (IZR (- z)) (- z)) by lra. lia.
Qed.

(** A real number that is not negative and lies in [z, z + 1), with [z]
    an [int64], is stored as [z]. *)
Lemma real_to_int64_Ok (x : R) (z : Z) :
  (0 <= x)%R -> (IZR z <= x < IZR z + 1)%R -> in_int64 z = true ->
  to_int64 x = Ok z.
Proof.
  intros H0 Hz Hin. cbn [to_int64 exact]. unfold real_to_int64.
  assert (Rtrunc x = z) as ->; [|now rewrite Hin].
  unfold Rtrunc. destruct (Rle_dec 0 x) as [_|Hneg]; [|contradiction].
  symmetry. apply Int_part_spec. lra.
Qed.

Lemma in_int64_spec (z : Z) : in_int64 z = true <-> - 2 ^ 63 <= z < 2 ^ 63.
Proof. unfold in_int64. rewrite andb_true_iff. lia. Qed.

(** The whole part of [m * 2^e], by shifting. *)
Lemma shift_bounds (m : positive) (e : Z) :
  let a := if 0 <=? e then Z.shiftl (Zpos m) e else Z.shiftr (Zpos m) (- e) in
  0 <= a /\
  a * 2 ^ Z.max (- e) 0 <= Zpos m * 2 ^ Z.max e 0 < (a + 1) * 2 ^ Z.max (- e) 0.
Proof.
  destruct (0 <=? e) eqn:He; cbv zeta.
  - apply Z.leb_le in He. rewrite Z.shiftl_mul_pow2 by exact He.
    rewrite (Z.max_r (- e) 0), (Z.max_l e 0) by lia.
    assert (0 < 2 ^ e) by (apply Z.pow_pos_nonneg; lia). simpl (2 ^ 0). nia.
  - apply Z.leb_gt in He. rewrite Z.shiftr_div_pow2 by lia.
    rewrite (Z.max_l (- e) 0), (Z.max_r e 0) by lia.
    assert (Hd : 0 < 2 ^ (- e)) by (apply Z.pow_pos_nonneg; lia).
    pose proof (Z.div_mod (Zpos m) (2 ^ (- e)) ltac:(lia)) as Hdm.
    pose proof (Z.mod_pos_bound (Zpos m) (2 ^ (- e)) Hd) as Hr.
    assert (0 <= Zpos m / 2 ^ (- e)) by (apply Z.div_pos; lia).
    simpl (2 ^ 0). nia.
Qed.

Lemma whole_part_unique (d n a b : Z) :
  0 < d -> a * d <= n < (a + 1) * d -> b * d <= n < (b + 1) * d -> a = b.
Proof. intros Hd Ha Hb. nia. Qed.

(** The store succeeds exactly when the float is finite and its whole
    part is an [int64], and what is stored is that whole part. *)
Lemma float_to_int64_Ok (x : float) (s : Z) :
  float_to_int64 x = Ok s <-> truncates x s /\ - 2 ^ 63 <= s < 2 ^ 63.
Proof.
  unfold float_to_int64, truncates.
  destruct (Prim2SF x) as [sg|sg| |sg m e].
  - split; [intros [= <-]; split; [reflexivity|lia]|now intros [-> _]].
  - split; [discriminate|intros [[] _]].
  - split; [discriminate|intros [[] _]].
  - pose proof (shift_bounds m e) as Hsh. cbv zeta in Hsh |- *.
    set (a := if 0 <=? e then Z.shiftl (Z.pos m) e else Z.shiftr (Z.pos m) (- e))
      in *.
    destruct Hsh as [Ha Hb].
    assert (Hd : 0 < 2 ^ Z.max (- e) 0) by (apply Z.pow_pos_nonneg; lia).
    split.
    + destruct (in_int64 _) eqn:Hin; [|discriminate]. intros [= <-].
      apply in_int64_spec in Hin. split; [|exact Hin].
      destruct sg.
      * split; [lia|]. now replace (Z.abs (- a)) with a by lia.
      * split; [lia|]. now replace (Z.abs a) with a by lia.
    + intros [[Hsign Hs] Hrange].
      assert (Habs : a = Z.abs s) by (eapply whole_part_unique; eassumption).
      assert (Hv : (if sg then - a else a) = s) by (destruct sg; lia).
      rewrite Hv. apply in_int64_spec in Hrange. now rewrite Hrange.
Qed.

(** The store raises for a NaN (a value error) and for an infinity or a
    whole part that is no [int64] (an overflow error), and for nothing
    else. *)
Lemma float_to_int64_Raise (x : float) (e : exn) :
  float_to_int64 x = Raise e <->
  (e = ValueError /\ Prim2SF x = S754_nan) \/
  (e = OverflowError /\
   ((exists sg, Prim2SF x = S754_infinity sg) \/
    exists s, truncates x s /\ ~ (- 2 ^ 63 <= s < 2 ^ 63))).
Proof.
  unfold float_to_int64, truncates.
  destruct (Prim2SF x) as [sg|sg| |sg m e0] eqn:Hx.
  - split; [discriminate|].
    intros [[_ [=]]|[_ [[? [=]]|(s & -> & Hs)]]]. lia.
  - split; [intros [= <-]; right; split; [reflexivity|left; now eexists]|].
    now intros [[_ [=]]|[-> _]].
  - split; [intros [= <-]; now left|].
    intros [[-> _]|[_ [[? [=]]|(s & [] & _)]]]. reflexivity.
  - pose proof (shift_bounds m e0) as Hsh. cbv zeta in Hsh |- *.
    set (a := if 0 <=? e0 then Z.shiftl (Z.pos m) e0
              else Z.shiftr (Z.pos m) (- e0)) in *.
    destruct Hsh as [Ha Hb].
    assert (Hd : 0 < 2 ^ Z.max (- e0) 0) by (apply Z.pow_pos_nonneg; lia).
    split.
    + destruct (in_int64 _) eqn:Hin; [discriminate|]. intros [= <-].
      right. split; [reflexivity|]. right.
      exists (if sg then - a else a). split.
      * destruct sg.
        -- split; [lia|]. now replace (Z.abs (- a)) with a by lia.
        -- split; [lia|]. now replace (Z.abs a) with a by lia.
      * intros Hr. apply in_int64_spec in Hr. congruence.
    + intros [[_ [=]]|[-> [[? [=]]|(s & [Hsign Hs] & Hout)]]].
      assert (Habs : a = Z.abs s) by (eapply whole_part_unique; eassumption).
      assert (Hv : (if sg then - a else a) = s) by (destruct sg; lia).
      rewrite Hv. destruct (in_int64 s) eqn:Hin; [|reflexivity].
      apply in_int64_spec in Hin. contradiction.
Qed.

Section ElapsedClaims.

Context {F : Type} {f64 : Float64 F}.

(** C8.  With [newtime] an integer and [years] zero the call computes
    what it computes with no [newtime] at all: the value of every
    selected field is the default one, T - 4453401600, and never
    [newtime] - T.  The array holds these values as stored into an
    integer array, field by field; the call raises what the first store
    that fails raises; and when every value can be stored, the array is
    produced. *)
Theorem integer_newtime_is_ignored (TIME : list F) (fieldid : np.ndarray)
    (times : list F) (years : F) (n : Z) :
  feqb years (of_int 0) = true ->
  np.take TIME fieldid = Ok times ->
  elapsed_seconds fieldid times years (PyInt n)
  = elapsed_seconds fieldid times years PyNone /\
  match elapsed_seconds fieldid times years (PyInt n) with
  | Ok seconds =>
      Forall2 (fun T s => to_int64 (T - of_int 4453401600)%f64 = Ok s)
              times seconds
  | Raise e =>
      exists T, T ∈ times /\ to_int64 (T - of_int 4453401600)%f64 = Raise e
  end /\
  (Forall (fun T => exists s, to_int64 (T - of_int 4453401600)%f64 = Ok s)
          times ->
   exists seconds, elapsed_seconds fieldid times years (PyInt n) = Ok seconds).
Proof.
  intros Hy Htake. split; [reflexivity|].
  apply take_Ok_inv in Htake as (ids & -> & Hlen).
  unfold elapsed_seconds. rewrite Hy.
  rewrite fill_store_all
    by (unfold np.zeros_like; simpl; now rewrite length_replicate).
  split.
  - destruct (store_all _ times) as [l|e] eqn:H.
    + now apply store_all_Ok in H.
    + now apply store_all_Raise in H.
  - intros Hall. now apply store_all_total.
Qed.

End ElapsedClaims.

(** C2, as the code has it, on binary64.  For a selected field with
    recorded time T the value of the elapsed time is: E - T if [newtime]
    is a float E, whatever [years]; otherwise ([newtime] absent or of
    another type), [years * 31556925] if [years] is not zero, whatever T;
    otherwise T - 4453401600.  The array holds these values as stored
    into an integer array, field by field; if a store raises (the value
    is not a number, or its whole part is no [int64]) the computation
    raises what the first such store raises; and when every value can be
    stored, the array is produced. *)
Theorem epoch_precedence (TIME : list float) (fieldid : np.ndarray)
    (times : list float) (years : float) (newtime : pyscalar float) :
  np.take TIME fieldid = Ok times ->
  times <> [] ->
  let elapsed := fun T : float =>
    match newtime with
    | PyFloat E => (E - T)%f64
    | _ => if feqb years (of_int 0)
           then (T - of_int 4453401600)%f64
           else (years * of_int 31556925)%f64
    end in
  match elapsed_seconds fieldid times years newtime with
  | Ok seconds =>
      Forall2 (fun T s => float_to_int64 (elapsed T) = Ok s) times seconds
  | Raise e =>
      exists T, T ∈ times /\ float_to_int64 (elapsed T) = Raise e
  end /\
  (Forall (fun T => exists s, float_to_int64 (elapsed T) = Ok s) times ->
   exists seconds, elapsed_seconds fieldid times years newtime = Ok seconds).
Proof.
  intros Htake Hne elapsed.
  apply take_Ok_inv in Htake as (ids & -> & Hlen).
  assert (Hexpr : forall T, elapsed T = elapsed_expr years newtime T).
  { intros T. unfold elapsed, elapsed_expr. now destruct newtime. }
  split.
  - pose proof (elapsed_seconds_outcome ids times years newtime Hlen Hne) as H.
    destruct (elapsed_seconds _ times years newtime) as [seconds|e].
    + eapply Forall2_impl; [exact H|]. intros T s HT. now rewrite Hexpr.
    + destruct H as (T & Hin & HT). exists T. split; [exact Hin|].
      now rewrite Hexpr.
  - intros Hall.
    destruct (elapsed_seconds_total ids times years newtime Hlen Hne)
      as (seconds & Hrun & _); [|now exists seconds].
    eapply Forall_impl; [exact Hall|]. intros T (s & HT). exists s.
    unfold elapsed_of. now rewrite <- Hexpr.
Qed.

(** C9, on binary64.  The array of elapsed times is shaped like
    [fieldid] and holds integers: the entry of a selected field is the
    float its mode computes (E - T, T - 4453401600 or [years * 31556925])
    with the fraction dropped - the integer [s] of the sign of that
    float with |s| <= |float| < |s| + 1 - and it is an [int64].  The
    array exists exactly when every such float is finite with a whole
    part within [int64].  (The loop multiplies the proper motion by the
    entries of this array: [direction_formula].) *)
Theorem elapsed_seconds_are_integers (TIME : list float)
    (fieldid : np.ndarray) (times : list float) (years : float)
    (newtime : pyscalar float) :
  np.take TIME fieldid = Ok times ->
  times <> [] ->
  let elapsed := fun T : float =>
    match newtime with
    | PyFloat E => (E - T)%f64
    | _ => if feqb years (of_int 0)
           then (T - of_int 4453401600)%f64
           else (years * of_int 31556925)%f64
    end in
  let whole := fun (T : float) (s : Z) =>
    truncates (elapsed T) s /\ - 2 ^ 63 <= s < 2 ^ 63 in
  (Forall (fun T => exists s, whole T s) times <->
   exists seconds, elapsed_seconds fieldid times years newtime = Ok seconds) /\
  forall seconds : list Z,
    elapsed_seconds fieldid times years newtime = Ok seconds ->
    length seconds = length (np.entries fieldid) /\
    Forall2 whole times seconds.
Proof.
  intros Htake Hne elapsed whole.
  apply take_Ok_inv in Htake as (ids & -> & Hlen).
  assert (Hexpr : forall T s,
             elapsed_of years newtime T = Ok s <-> whole T s).
  { intros T s. unfold whole, elapsed_of. rewrite <- float_to_int64_Ok.
    replace (elapsed T) with (elapsed_expr years newtime T); [reflexivity|].
    unfold elapsed, elapsed_expr. now destruct newtime. }
  assert (Hok : forall seconds,
             elapsed_seconds (np.Ints ids) times years newtime = Ok seconds ->
             Forall2 whole times seconds).
  { intros seconds Hrun.
    pose proof (elapsed_seconds_outcome ids times years newtime Hlen Hne) as H.
    rewrite Hrun in H. eapply Forall2_impl; [exact H|].
    intros T s. apply Hexpr. }
  split; [split|].
  - intros Hall.
    destruct (elapsed_seconds_total ids times years newtime Hlen Hne)
      as (seconds & Hrun & _); [|now exists seconds].
    eapply Forall_impl; [exact Hall|]. intros T (s & HT). exists s.
    now apply Hexpr.
  - intros (seconds & Hrun). apply Hok in Hrun.
    apply Forall_forall. intros T HT.
    apply list_elem_of_lookup_1 in HT as (i & Hi).
    destruct (Forall2_lookup_l _ _ _ _ _ Hrun Hi) as (s & _ & Hs).
    now exists s.
  - intros seconds Hrun. split; [|now apply Hok].
    cbn [np.entries]. eapply elapsed_seconds_length; eassumption.
Qed.

Lemma epoch_precedence_witness :
  match elapsed_seconds (np.Ints [2; 0]) [4899999999.5; 4900000000.25]%float
                        7%float (PyFloat 5000000000.5%float) with
  | Ok seconds =>
      Forall2 (fun T s => float_to_int64 (5000000000.5%float - T)%f64 = Ok s)
              [4899999999.5; 4900000000.25]%float seconds
  | Raise e =>
      exists T, T ∈ [4899999999.5; 4900000000.25]%float /\
                float_to_int64 (5000000000.5%float - T)%f64 = Raise e
  end /\
  (Forall (fun T => exists s,
             float_to_int64 (5000000000.5%float - T)%f64 = Ok s)
          [4899999999.5; 4900000000.25]%float ->
   exists seconds,
     elapsed_seconds (np.Ints [2; 0]) [4899999999.5; 4900000000.25]%float
                     7%float (PyFloat 5000000000.5%float)
     = Ok seconds).
Proof.
  apply (epoch_precedence times3 (np.Ints [2; 0])
           [4899999999.5; 4900000000.25]%float 7%float
           (PyFloat 5000000000.5%float));
    [reflexivity|discriminate].
Defined.

(** The three modes at work, and a year offset that cannot be stored. *)
Example epoch_precedence_examples :
  elapsed_seconds (np.Ints [2; 0]) [4899999999.5; 4900000000.25]%float
                  7%float (PyFloat 5000000000.5%float)
  = Ok [100000001; 100000000] /\
  elapsed_seconds (np.Ints [2; 0]) [4899999999.5; 4900000000.25]%float
                  7%float PyNone
  = Ok [220898475; 220898475] /\
  elapsed_seconds (np.Ints [2; 0]) [4899999999.5; 4900000000.25]%float
                  0%float PyNone
  = Ok [446598399; 446598400] /\
  elapsed_seconds (np.Ints [2; 0]) [4899999999.5; 4900000000.25]%float
                  1e30%float PyNone
  = Raise OverflowError.
Proof. vm_compute. repeat split. Qed.

(** C2 as it is worded fails on the code: [newtime] given as the integer
    5000000000 for a field observed at 4900000000 s, with no year
    offset.  The specification's elapsed time is 100000000 s; the code
    takes the default branch and stores 446598400 s. *)
Lemma epoch_precedence_counterexample :
  ~ agrees_with_spec (np.Ints [0]) [4900000000%float] 0%float
                     (PyInt 5000000000).
Proof.
  intros (seconds & Hrun & Hall).
  vm_compute in Hrun.
  assert (seconds = [446598400]) as -> by congruence.
  apply Forall2_cons_1 in Hall as [Hs _].
  vm_compute in Hs.
  assert (Hne : 100000000%float = 446598400%float) by congruence.
  float_neq Hne.
Qed.

Lemma integer_newtime_is_ignored_witness :
  elapsed_seconds (np.Ints [2; 0]) [4899999999.5; 4900000000.25]%float
                  0%float (PyInt 5000000000)
  = elapsed_seconds (np.Ints [2; 0]) [4899999999.5; 4900000000.25]%float
                    0%float PyNone /\
  match elapsed_seconds (np.Ints [2; 0]) [4899999999.5; 4900000000.25]%float
                        0%float (PyInt 5000000000) with
  | Ok seconds =>
      Forall2 (fun T s => to_int64 (T - of_int 4453401600)%f64 = Ok s)
              [4899999999.5; 4900000000.25]%float seconds
  | Raise e =>
      exists T, T ∈ [4899999999.5; 4900000000.25]%float /\
                to_int64 (T - of_int 4453401600)%f64 = Raise e
  end /\
  (Forall (fun T => exists s, to_int64 (T - of_int 4453401600)%f64 = Ok s)
          [4899999999.5; 4900000000.25]%float ->
   exists seconds,
     elapsed_seconds (np.Ints [2; 0]) [4899999999.5; 4900000000.25]%float
                     0%float (PyInt 5000000000)
     = Ok seconds).
Proof.
  apply (integer_newtime_is_ignored (F := float) times3 (np.Ints [2; 0])
           [4899999999.5; 4900000000.25]%float 0%float 5000000000);
    reflexivity.
Defined.

(** What the code does with that integer [newtime]: 446598399 s and
    446598400 s since J2000, not the 100000001 s and 100000000 s to the
    requested epoch. *)
Example integer_newtime_example :
  elapsed_seconds (np.Ints [2; 0]) [4899999999.5; 4900000000.25]%float
                  0%float (PyInt 5000000000)
  = Ok [446598399; 446598400].
Proof. vm_compute. reflexivity. Qed.

Lemma elapsed_seconds_are_integers_witness :
  (Forall (fun T => exists s,
             truncates (2.5%float * of_int 31556925)%f64 s /\
             - 2 ^ 63 <= s < 2 ^ 63)
          [4899999999.5; 4900000000.25]%float <->
   exists seconds,
     elapsed_seconds (np.Ints [2; 0]) [4899999999.5; 4900000000.25]%float
                     2.5%float PyNone
     = Ok seconds) /\
  forall seconds : list Z,
    elapsed_seconds (np.Ints [2; 0]) [4899999999.5; 4900000000.25]%float
                    2.5%float PyNone
    = Ok seconds ->
    length seconds = length (np.entries (np.Ints [2; 0])) /\
    Forall2 (fun (T : float) (s : Z) =>
               truncates (2.5%float * of_int 31556925)%f64 s /\
               - 2 ^ 63 <= s < 2 ^ 63)
            [4899999999.5; 4900000000.25]%float seconds.
Proof.
  apply (elapsed_seconds_are_integers times3 (np.Ints [2; 0])
           [4899999999.5; 4900000000.25]%float 2.5%float PyNone);
    [reflexivity|discriminate].
Defined.

(** The entries are truncated, not rounded: 99999999.75 s to the target
    epoch are kept as 99999999 s, and -0.75 s as 0 s. *)
Example truncation_examples :
  elapsed_seconds (np.Ints [0; 1]) [4900000000.75; 5000000001.25]%float
                  0%float (PyFloat 5000000000.5%float)
  = Ok [99999999; 0] /\
  truncates (5000000000.5 - 4900000000.75)%float 99999999 /\
  truncates (5000000000.5 - 5000000001.25)%float 0 /\
  ~ truncates (5000000000.5 - 4900000000.75)%float 100000000.
Proof.
  split; [vm_compute; reflexivity|].
  unfold truncates. vm_compute. repeat split; try discriminate.
  intros [_ [H _]]. apply H. reflexivity.
Qed.

(** ** The direction update (C3, C4) *)

Section DirectionClaims.

Context {F : Type} {f64 : Float64 F} {cosine : Cosine F}.

(** C3.  One pass of the loop over the selected fields, for the field
    [j] at position [i]: each of the three direction cells of row [j] is
    read as (ra, dec) and written back as (new_ra, new_dec) with
    new_dec = dec + pmdec * seconds[i] and
    new_ra = ra + pmra * seconds[i] / cos(new_dec): the cosine is that
    of the new declination. *)
Theorem direction_formula (properMotion : F * F) (seconds : list Z)
    (i j found : Z) (st : state F) (r : field_row F) (t : Z) :
  0 <= j -> FIELD (outms st) !! Z.to_nat j = Some r ->
  0 <= i -> seconds !! Z.to_nat i = Some t ->
  exists st' r',
    update_field properMotion seconds (i, j) found st = (Ok 1, st') /\
    FIELD (outms st') !! Z.to_nat j = Some r' /\
    forall direct : role,
      let ra := fst (get_dir direct r) in
      let dec := snd (get_dir direct r) in
      let pmra := fst properMotion in
      let pmdec := snd properMotion in
      let new_dec := (dec + pmdec * of_int t)%f64 in
      let new_ra := (ra + pmra * of_int t / np_cos new_dec)%f64 in
      get_dir direct r' = (new_ra, new_dec) /\
      PutDir direct j (new_ra, new_dec) ∈ log st'.
Proof.
  intros Hj Hr Hi Ht. pose proof (lookup_lt_Some _ _ _ Hr) as Hlt.
  eexists. exists (corrected_row properMotion t r).
  split; [now apply update_field_ok with (r := r) (t := t)|].
  cbn [outms FIELD log]. split; [now apply list_lookup_insert_eq|].
  intros direct. cbv zeta. split.
  - now rewrite get_dir_corrected_row.
  - apply elem_of_app. right.
    destruct direct; cbn [get_dir];
      [right; left|right; right; left|right; right; right; left].
Qed.

(** C4, as the code has it.  In one pass every role is corrected by the
    same function of the same proper motion and the same elapsed time;
    two roles that hold the same direction before the pass hold the same
    direction after it, so their changes are identical. *)
Theorem uniform_roles (properMotion : F * F) (seconds : list Z)
    (i j found : Z) (st : state F) (r : field_row F) (t : Z) :
  0 <= j -> FIELD (outms st) !! Z.to_nat j = Some r ->
  0 <= i -> seconds !! Z.to_nat i = Some t ->
  exists st' r',
    update_field properMotion seconds (i, j) found st = (Ok 1, st') /\
    FIELD (outms st') !! Z.to_nat j = Some r' /\
    (forall direct : role,
       get_dir direct r' = new_direction (get_dir direct r) properMotion t) /\
    (forall d1 d2 : role,
       get_dir d1 r = get_dir d2 r ->
       get_dir d1 r' = get_dir d2 r' /\ delta r r' d1 = delta r r' d2).
Proof.
  intros Hj Hr Hi Ht. pose proof (lookup_lt_Some _ _ _ Hr) as Hlt.
  eexists. exists (corrected_row properMotion t r).
  split; [now apply update_field_ok with (r := r) (t := t)|].
  cbn [outms FIELD log]. split; [now apply list_lookup_insert_eq|].
  split; [intros; apply get_dir_corrected_row|].
  intros d1 d2 Heq. unfold delta. rewrite !get_dir_corrected_row, Heq.
  now split.
Qed.

End DirectionClaims.

Lemma direction_formula_witness :
  exists st' r',
    update_field (1.66e-14, -7.6e-15)%R [446598400; 446599000] (1, 2) 0
                 {| outms := example_ms; log := [] |}
    = (Ok 1, st') /\
    FIELD (outms st') !! Z.to_nat 2 = Some r' /\
    forall direct : role,
      get_dir direct r'
      = ((6.04 + 1.66e-14 * IZR 446599000
                 / cos (0.369 + -7.6e-15 * IZR 446599000))%R,
         (0.369 + -7.6e-15 * IZR 446599000)%R) /\
      PutDir direct 2
        ((6.04 + 1.66e-14 * IZR 446599000
                 / cos (0.369 + -7.6e-15 * IZR 446599000))%R,
         (0.369 + -7.6e-15 * IZR 446599000)%R)
      ∈ log st'.
Proof.
  destruct (direction_formula (F := R) (1.66e-14, -7.6e-15)%R
              [446598400; 446599000] 1 2 0
              {| outms := example_ms; log := [] |}
              {| f_NAME := "hr8799"; f_SOURCE_ID := 1;
                 f_TIME := 4900001200.25%R;
                 f_REFERENCE_DIR := (6.04, 0.369)%R;
                 f_PHASE_DIR := (6.04, 0.369)%R;
                 f_DELAY_DIR := (6.04, 0.369)%R;
                 f_other := [("CODE", "none")] |}%string
              446599000)
    as (st' & r' & Hrun & Hrow & Hdir); try reflexivity; try lia.
  exists st', r'. split; [exact Hrun|]. split; [exact Hrow|].
  intros direct. specialize (Hdir direct). destruct direct; exact Hdir.
Defined.

Lemma uniform_roles_witness :
  exists st' r',
    update_field (1e-11, 0)%R [3155692500] (0, 0) 0
                 {| outms := {| FIELD := [offset_row]; SOURCE := [] |};
                    log := [] |}
    = (Ok 1, st') /\
    FIELD (outms st') !! Z.to_nat 0 = Some r' /\
    (forall direct : role,
       get_dir direct r'
       = new_direction (get_dir direct offset_row) (1e-11, 0)%R 3155692500) /\
    (forall d1 d2 : role,
       get_dir d1 offset_row = get_dir d2 offset_row ->
       get_dir d1 r' = get_dir d2 r' /\
       delta offset_row r' d1 = delta offset_row r' d2).
Proof.
  apply (uniform_roles (F := R) (1e-11, 0)%R [3155692500] 0 0 0
           {| outms := {| FIELD := [offset_row]; SOURCE := [] |}; log := [] |}
           offset_row 3155692500); try reflexivity; lia.
Defined.

(** C4 as it is worded fails on the code: a field whose phase centre
    lies one radian north of its reference direction, moved in right
    ascension only.  The two declinations stay 0 and 1, so the right
    ascension of the reference direction grows by pmra * t / cos 0 and
    that of the phase centre by pmra * t / cos 1. *)
Lemma uniform_roles_counterexample :
  exists st' r',
    update_field (1e-11, 0)%R [3155692500] (0, 0) 0
                 {| outms := {| FIELD := [offset_row]; SOURCE := [] |};
                    log := [] |}
    = (Ok 1, st') /\
    FIELD (outms st') !! Z.to_nat 0 = Some r' /\
    delta offset_row r' REFERENCE_DIR <> delta offset_row r' PHASE_DIR.
Proof.
  eexists. exists (corrected_row (1e-11, 0)%R 3155692500 offset_row).
  split; [apply update_field_ok with (r := offset_row) (t := 3155692500);
          try reflexivity; lia|].
  split; [reflexivity|].
  unfold delta. rewrite !get_dir_corrected_row.
  unfold new_direction, new_ra, new_dec, offset_row, np_cos, exact_cos.
  cbn [get_dir f_REFERENCE_DIR f_PHASE_DIR fst snd fadd fsub fmul fdiv
       of_int exact].
  intros Heq. apply (f_equal fst) in Heq. cbn [fst] in Heq.
  replace (0 + 0 * IZR 3155692500)%R with 0%R in Heq by lra.
  replace (1 + 0 * IZR 3155692500)%R with 1%R in Heq by lra.
  rewrite cos_0 in Heq.
  assert (Hpi : (1 < PI / 2)%R) by exact PI2_1.
  assert (Hpos : (0 < cos 1)%R) by (apply cos_gt_0; lra).
  assert (Hlt : (cos 1 < cos 0)%R) by (apply cos_decreasing_1; lra).
  rewrite cos_0 in Hlt.
  unfold Rdiv in Heq. rewrite Rinv_1 in Heq.
  assert (Hinv : (/ cos 1 = 1)%R) by lra.
  apply (f_equal (fun x => (x * cos 1)%R)) in Hinv.
  rewrite Rinv_l in Hinv by lra. lra.
Qed.

(** ** The catalogue step (C5, C6) *)

Section SyncClaims.

Context {F : Type} {f64 : Float64 F}.

(** C5, as the code has it.  With a catalogue match, and at least one
    SOURCE row bearing the queried name ([k] being the first): the
    fetched proper motion is reported, then the stored one of row [k],
    converted to milliarcseconds per year; then the fetched one, divided
    by 1000 * ARCSEC_PER_RAD * SECONDS_PER_YEAR, is written to every row
    bearing the name, and to no other; nothing else changes. *)
Theorem updatePM_overwrites_named_rows (simbad : pyvalue F -> option (F * F))
    (source : pyvalue F) (st : state F) (pm : F * F) (k : Z) (rest : list Z) :
  simbad source = Some pm ->
  rows_named source (outms st) = k :: rest ->
  let factor := (of_int 1000 * ARCSEC_PER_RAD * SECONDS_PER_YEAR)%f64 in
  let newpm := ((fst pm / factor)%f64, (snd pm / factor)%f64) in
  exists first st',
    SOURCE (outms st) !! Z.to_nat k = Some first /\
    updatePM simbad source st = (Ok tt, st') /\
    log st' = log st ++
              [SimbadFound (fst pm) (snd pm);
               CurrentPM (fst (s_PROPER_MOTION first) * factor)%f64
                         (snd (s_PROPER_MOTION first) * factor)%f64;
               PutPM (k :: rest) newpm;
               Updated] /\
    FIELD (outms st') = FIELD (outms st) /\
    length (SOURCE (outms st')) = length (SOURCE (outms st)) /\
    forall (n : nat) (row : source_row F),
      SOURCE (outms st) !! n = Some row ->
      SOURCE (outms st') !! n
      = Some (if name_is source (s_NAME row) then set_pm newpm row else row).
Proof.
  intros Hs Hrows factor newpm.
  destruct (updatePM_found simbad source st pm k rest Hs Hrows)
    as (first & Hfirst & _ & Hrun).
  exists first. eexists. split; [exact Hfirst|]. split; [exact Hrun|].
  cbn [outms log FIELD SOURCE]. split; [reflexivity|]. split; [reflexivity|].
  split; [apply (foldl_alter_length (set_pm (to_rad_per_s pm)))|].
  intros n row Hrow. rewrite <- Hrows.
  apply (synced_rows_lookup source (outms st) (to_rad_per_s pm) n row Hrow).
Qed.

End SyncClaims.

Lemma updatePM_overwrites_named_rows_witness :
  let factor := (of_int 1000 * ARCSEC_PER_RAD * SECONDS_PER_YEAR)%f64 in
  let newpm := ((108.3%float / factor)%f64, ((-49.5)%float / factor)%f64) in
  exists first st',
    SOURCE example_ms64 !! Z.to_nat 1 = Some first /\
    updatePM (example_simbad (108.3, -49.5)%float) (Scalar (PyStr "hr8799"))
             {| outms := example_ms64; log := [] |}
    = (Ok tt, st') /\
    log st' = [] ++
              [SimbadFound 108.3%float (-49.5)%float;
               CurrentPM (fst (s_PROPER_MOTION first) * factor)%f64
                         (snd (s_PROPER_MOTION first) * factor)%f64;
               PutPM [1] newpm;
               Updated] /\
    FIELD (outms st') = FIELD example_ms64 /\
    length (SOURCE (outms st')) = length (SOURCE example_ms64) /\
    forall (n : nat) (row : source_row float),
      SOURCE example_ms64 !! n = Some row ->
      SOURCE (outms st') !! n
      = Some (if name_is (F := float) (Scalar (PyStr "hr8799")) (s_NAME row)
              then set_pm newpm row else row).
Proof.
  apply (updatePM_overwrites_named_rows (F := float)
           (example_simbad (108.3, -49.5)%float) (Scalar (PyStr "hr8799"))
           {| outms := example_ms64; log := [] |} (108.3, -49.5)%float 1 []);
    reflexivity.
Defined.

(** The run behind that witness: Simbad gives 108.3 and -49.5 mas/yr;
    the table held 1.66e-14 and -7.6e-15 rad/s, reported as 108.05 and
    -49.47 mas/yr. *)
Example updatePM_example :
  updatePM (example_simbad (108.3, -49.5)%float) (Scalar (PyStr "hr8799"))
           {| outms := example_ms64; log := [] |}
  = (Ok tt,
     {| outms :=
          {| FIELD := [];
             SOURCE := [
               {| s_NAME := "J2253+1608"; s_SOURCE_ID := 0;
                  s_PROPER_MOTION := (0, 0)%float;
                  s_other := [("CODE", "none")] |};
               {| s_NAME := "hr8799"; s_SOURCE_ID := 1;
                  s_PROPER_MOTION :=
                    (1.6638288319968674e-14, -7.604757819376264e-15)%float;
                  s_other := [("CODE", "none")] |} ]%string |};
        log := [SimbadFound 108.3%float (-49.5)%float;
                CurrentPM 108.05077814659391%float (-49.46903095868155)%float;
                PutPM [1] (1.6638288319968674e-14, -7.604757819376264e-15)%float;
                Updated] |}).
Proof. vm_compute. reflexivity. Qed.

(** C5 as it is worded fails on the code: Simbad knows "HR 8799", the
    SOURCE table spells it "hr8799".  The fetched value is reported and
    then [sid[0][0]] on line 129 raises: the stored value is not
    reported and nothing is written. *)
Lemma updatePM_counterexample :
  updatePM (example_simbad (108.3, -49.5)%float) (Scalar (PyStr "HR 8799"))
           {| outms := example_ms64; log := [] |}
  = (Raise IndexError,
     {| outms := example_ms64;
        log := [SimbadFound 108.3%float (-49.5)%float] |}).
Proof. vm_compute. reflexivity. Qed.


(** On binary64, the arithmetic the code runs, the two conversions do
    not undo each other exactly: 108.3 mas/yr comes back one unit in the
    last place lower (-49.5 mas/yr comes back as it was). *)
Example round_trip_binary64 :
  to_mas_per_yr (to_rad_per_s (108.3, -49.5)%float)
  = (108.29999999999998, -49.5)%float.
Proof. vm_compute. reflexivity. Qed.

(** ** The whole call *)

Section WholeCall.

Context {F : Type} {f64 : Float64 F} {cosine : Cosine F}.
Implicit Types (st s : state F) (field : pyvalue F) (pm : F * F).

(** Indexing with row numbers counted from the start succeeds and
    yields the cells of those rows. *)
Lemma take_ints_rows {A} (col : list A) (idx : list Z) :
  Forall (fun j => 0 <= j < Z.of_nat (length col)) idx ->
  exists l, np.take_ints col idx = Ok l /\
            Forall2 (fun j a => col !! Z.to_nat j = Some a) idx l.
Proof.
  induction idx as [|j idx IH]; intros Hall.
  - exists []. split; [reflexivity|constructor].
  - apply Forall_cons in Hall as [Hj Hall].
    destruct (IH Hall) as (l & Hl & Hrows).
    destruct (lookup_lt_is_Some_2 col (Z.to_nat j) ltac:(lia)) as [a Ha].
    exists (a :: l). split; [|now constructor].
    simpl. rewrite <- (Z2Nat.id j) at 1 by lia.
    now rewrite (item_lookup _ _ _ Ha), Hl.
Qed.

(** The loop over [enumerate(fieldid)], when every identifier is a row
    of FIELD: it completes, leaves [foundSource] at 1 if it ran at all,
    and corrects the rows in turn. *)
Lemma update_loop_ok pm (seconds : list Z) (ids : list Z) :
  forall (i0 : nat) (found : Z) st,
    Forall (fun j => 0 <= j < Z.of_nat (length (FIELD (outms st)))) ids ->
    (i0 + length ids <= length seconds)%nat ->
    exists st',
      for_each (update_field pm seconds) (enumerate_from (Z.of_nat i0) ids)
               found st
      = (Ok (match ids with [] => found | _ => 1 end), st') /\
      FIELD (outms st')
      = corrected_rows pm (drop i0 seconds) ids (FIELD (outms st)) /\
      SOURCE (outms st') = SOURCE (outms st) /\
      exists evs, log st' = log st ++ evs /\ Forall loop_event evs.
Proof.
  induction ids as [|j ids IH]; intros i0 found st Hall Hlen.
  - exists st. split; [reflexivity|]. unfold corrected_rows.
    rewrite zip_with_nil_r. split; [reflexivity|]. split; [reflexivity|].
    exists []. split; [now rewrite app_nil_r|constructor].
  - apply Forall_cons in Hall as [Hj Hall]. simpl in Hlen.
    destruct (lookup_lt_is_Some_2 (FIELD (outms st)) (Z.to_nat j) ltac:(lia))
      as [r Hr].
    destruct (lookup_lt_is_Some_2 seconds i0 ltac:(lia)) as [t Ht].
    cbn [enumerate_from for_each].
    erewrite bind_Ok.
    2:{ apply update_field_ok with (r := r) (t := t);
          [lia|exact Hr|lia|now rewrite Nat2Z.id]. }
    replace (Z.of_nat i0 + 1) with (Z.of_nat (S i0)) by lia.
    match goal with |- context [for_each _ _ 1 ?s1] =>
      destruct (IH (S i0) 1 s1) as (st' & Hrun & HF & HS & evs & Hlog & Hevs)
    end.
    { cbn [outms FIELD]. now rewrite length_insert. }
    { lia. }
    exists st'. split.
    { rewrite Hrun. now destruct ids. }
    cbn [outms FIELD SOURCE log] in HF, HS, Hlog.
    split; [|split; [exact HS|]].
    + rewrite HF. unfold corrected_rows.
      rewrite (drop_S _ _ _ Ht). cbn [zip_with foldl fst snd].
      now rewrite (alter_as_insert _ _ _ _ Hr).
    + eexists. split; [rewrite Hlog, <- app_assoc; reflexivity|].
      apply Forall_app. split; [|exact Hevs]. repeat constructor.
Qed.

(** Total correctness of the part after the catalogue step, from any
    state.  When the selection is a non-empty array [ids] of rows of
    FIELD, the SOURCE table has a row [src] for the source of the first
    selected field (its first such row), and the elapsed time of every
    selected field can be stored as an integer, the call completes;
    SOURCE is untouched; FIELD is as before with the selected rows
    corrected in turn, with the proper motion of [src] and the elapsed
    time of each row; only the loop has printed and written. *)
Lemma body_completes simbad field (years : F) (newtime : pyscalar F) s
    (j0 : Z) (ids : list Z) (f0 : field_row F)
    (k : Z) (others : list Z) (src : source_row F) :
  select_fieldid (map f_NAME (FIELD (outms s))) field = np.Ints (j0 :: ids) ->
  Forall (fun j => 0 <= j < Z.of_nat (length (FIELD (outms s)))) (j0 :: ids) ->
  FIELD (outms s) !! Z.to_nat j0 = Some f0 ->
  np.where_ (map (Z.eqb (f_SOURCE_ID f0)) (map s_SOURCE_ID (SOURCE (outms s))))
  = k :: others ->
  SOURCE (outms s) !! Z.to_nat k = Some src ->
  Forall (fun j => forall r, FIELD (outms s) !! Z.to_nat j = Some r ->
                   exists sec, elapsed_of years newtime (f_TIME r) = Ok sec)
         (j0 :: ids) ->
  exists st times seconds,
    correctForPM_body simbad field years newtime false s = (Ok tt, st) /\
    Forall2 (fun j T => map f_TIME (FIELD (outms s)) !! Z.to_nat j = Some T)
            (j0 :: ids) times /\
    Forall2 (fun T sec => elapsed_of years newtime T = Ok sec) times seconds /\
    FIELD (outms st)
    = corrected_rows (s_PROPER_MOTION src) seconds (j0 :: ids)
                     (FIELD (outms s)) /\
    SOURCE (outms st) = SOURCE (outms s) /\
    grows loop_event s st.
Proof.
  intros Hsel Hall Hf0 Hwhere Hsrc Hconv.
  assert (Hk : 0 <= k).
  { assert (Hin : k ∈ np.where_ (map (Z.eqb (f_SOURCE_ID f0))
                                      (map s_SOURCE_ID (SOURCE (outms s)))))
      by (rewrite Hwhere; left).
    apply elem_of_where in Hin as (n & -> & _). lia. }
  destruct (take_ints_rows (map f_SOURCE_ID (FIELD (outms s))) (j0 :: ids))
    as (sources & Hsources & Hs2); [now rewrite length_map|].
  destruct (take_ints_rows (map f_TIME (FIELD (outms s))) (j0 :: ids))
    as (times & Htimes & Ht2); [now rewrite length_map|].
  destruct sources as [|s0 sources]; [inversion Hs2|].
  assert (Hs0 : s0 = f_SOURCE_ID f0).
  { apply Forall2_cons_1 in Hs2 as [H0 _].
    rewrite list_lookup_fmap, Hf0 in H0. now injection H0. }
  subst s0.
  pose proof (take_ints_length _ _ _ Htimes) as Hlen.
  assert (Hne : times <> []) by (destruct times; [discriminate Hlen|discriminate]).
  assert (Htc : Forall (fun T => exists sec, elapsed_of years newtime T = Ok sec)
                       times).
  { apply Forall_forall. intros T HT.
    apply list_elem_of_lookup_1 in HT as (i & Hi).
    destruct (Forall2_lookup_r _ _ _ _ _ Ht2 Hi) as (j & Hj & Hcell).
    rewrite list_lookup_fmap in Hcell.
    destruct (FIELD (outms s) !! Z.to_nat j) as [r|] eqn:Hr; [|discriminate].
    injection Hcell as <-. rewrite Forall_forall in Hconv.
    apply (Hconv j); [eapply list_elem_of_lookup_2, Hj|exact Hr]. }
  destruct (elapsed_seconds_total (j0 :: ids) times years newtime Hlen Hne Htc)
    as (seconds & Hsec & Hsecs).
  destruct (update_loop_ok (s_PROPER_MOTION src) seconds (j0 :: ids) 0 0 s)
    as (st & Hloop & HF & HS & Hlog).
  { exact Hall. }
  { rewrite <- (Forall2_length _ _ _ Hsecs), Hlen. simpl. lia. }
  exists st, times, seconds.
  split; [|split; [exact Ht2|split; [exact Hsecs|]]].
  - unfold correctForPM_body.
    unfold bind at 1, ret at 1. unfold bind at 1, get_ms at 1.
    rewrite Hsel.
    unfold bind at 1, lift at 1. cbn [np.take]. rewrite Hsources.
    unfold bind at 1, lift at 1. cbn [np.take]. rewrite Htimes.
    unfold bind at 1, lift at 1. rewrite item_head.
    unfold bind at 1, lift at 1. rewrite Hwhere, item_head.
    unfold bind at 1, lift at 1.
    rewrite <- (Z2Nat.id k) at 1 by exact Hk.
    rewrite (item_lookup _ _ (s_PROPER_MOTION src))
      by (rewrite list_lookup_fmap, Hsrc; reflexivity).
    unfold bind at 1, lift at 1. rewrite Hsec.
    cbn [np.entries]. unfold enumerate.
    change 0 with (Z.of_nat 0) at 1.
    erewrite bind_Ok by exact Hloop. reflexivity.
  - rewrite drop_0 in HF. split; [exact HF|]. split; [exact HS|exact Hlog].
Qed.








Lemma selected_Ints (inms : ms F) field (j0 : Z) (ids : list Z) :
  selected inms field = j0 :: ids ->
  select_fieldid (map f_NAME (FIELD inms)) field = np.Ints (j0 :: ids).
Proof.
  unfold selected. destruct (select_fieldid _ _); simpl; [congruence|discriminate].
Qed.

End WholeCall.

Section ByName.

Context {F : Type} {f64 : Float64 F} {cosine : Cosine F}.
Implicit Types (st s : state F) (field : pyvalue F) (pm : F * F).


End ByName.

(** The example on the reals: the elapsed times to the epoch 5000000000
    of the two fields on HR 8799, two years, and the time since J2000. *)
Example elapsed_of_examples :
  elapsed_of 0%R (PyFloat 5000000000%R) 4900000600.5%R = Ok 99999399 /\
  elapsed_of 0%R (PyFloat 5000000000%R) 4900001200.25%R = Ok 99998799 /\
  (forall T : R, elapsed_of 2%R PyNone T = Ok 63113850) /\
  elapsed_of 0%R PyNone 4900000600.5%R = Ok 446599000 /\
  elapsed_of 0%R PyNone 4900001200.25%R = Ok 446599600.
Proof.
  assert (H0 : feqb 0%R (of_int 0) = true).
  { cbn [feqb of_int exact]. now destruct (Req_dec_T 0 0). }
  assert (H2 : feqb 2%R (of_int 0) = false).
  { cbn [feqb of_int exact]. destruct (Req_dec_T 2 0); [lra|reflexivity]. }
  unfold elapsed_of, elapsed_expr. rewrite H0, H2.
  unfold SECONDS_PER_YEAR. cbn [fsub fmul of_int exact].
  repeat split; intros; apply real_to_int64_Ok; try reflexivity; lra.
Qed.


(** ** The message that is never printed *)

Section NotFound.

Context {F : Type} {f64 : Float64 F} {cosine : Cosine F}.
Implicit Types (st s : state F) (field : pyvalue F) (pm : F * F).

Lemma grows_refl Q s : grows Q s s.
Proof. exists []. split; [now rewrite app_nil_r|constructor]. Qed.

Lemma grows_trans Q s1 s2 s3 : grows Q s1 s2 -> grows Q s2 s3 -> grows Q s1 s3.
Proof.
  intros (e1 & E1 & P1) (e2 & E2 & P2). exists (e1 ++ e2).
  split; [now rewrite E2, E1, app_assoc|]. apply Forall_app. now split.
Qed.

Lemma keeps_grows_emit (Q : event F -> Prop) e : Q e -> keeps (grows Q) (emit e).
Proof.
  intros He s r s' [= <- <-]. exists [e]. split; [reflexivity|]. now constructor.
Qed.

Lemma keeps_grows_update_field pm seconds ij found :
  keeps (grows loop_event) (update_field pm seconds ij found).
Proof.
  assert (Htr := grows_trans loop_event). assert (Hrf := grows_refl loop_event).
  unfold update_field.
  apply keeps_bind; [exact Htr|now apply keeps_grows_emit|]. intros _.
  apply keeps_bind; [exact Htr| |intros; now apply keeps_ret].
  apply keeps_for_each; [exact Hrf|exact Htr|].
  intros direct [] _. unfold update_cell, getcell, putcell.
  apply keeps_bind; [exact Htr| |].
  { apply keeps_bind; [exact Htr|now apply keeps_get_ms|]. intros t.
    destruct (_ && _); [|now apply keeps_lift].
    destruct (_ !! _); [now apply keeps_ret|now apply keeps_lift]. }
  intros d. apply keeps_bind; [exact Htr|now apply keeps_lift|]. intros t.
  apply keeps_bind; [exact Htr|now apply keeps_get_ms|]. intros tbl.
  destruct (_ && _); [|now apply keeps_lift].
  apply keeps_bind; [exact Htr| |intros; now apply keeps_grows_emit].
  intros s r s' [= <- <-]. exists [].
  split; [cbn [log]; now rewrite app_nil_r|constructor].
Qed.

(** [foundSource] after the loop: 1 as soon as one pass completed. *)
Lemma for_each_found pm seconds (l : list (Z * Z)) :
  forall found s found' s',
    for_each (update_field pm seconds) l found s = (Ok found', s') ->
    found' = match l with [] => found | _ => 1 end.
Proof.
  induction l as [|ij l IH]; intros found s found' s' Hrun; simpl in Hrun.
  - now injection Hrun.
  - apply bind_inv in Hrun as [(f1 & s1 & H1 & Hrun)|(e & _ & [=])].
    assert (f1 = 1) as ->.
    { unfold update_field in H1.
      apply bind_inv in H1 as [(? & ? & _ & H1)|(e & _ & [=])].
      apply bind_inv in H1 as [(? & ? & _ & H1)|(e & _ & [=])].
      now injection H1. }
    apply IH in Hrun. now destruct l.
Qed.

(** Line 108 is dead code: no call prints "Did not find source".  Where
    the selection is empty, [sources[0]] has raised before; where it is
    not, every completed loop leaves [foundSource] at 1. *)
Theorem did_not_find_is_never_printed (simbad : pyvalue F -> option (F * F))
    (inms : ms F) field (years : F) (newtime : pyscalar F) (updatepm : bool) :
  Forall (fun e => sync_event e \/ loop_event e)
         (log (snd (correctForPM simbad inms field years newtime updatepm))).
Proof.
  set (Q := fun e : event F => sync_event e \/ loop_event e).
  assert (Htr := grows_trans Q). assert (Hrf := grows_refl Q).
  enough (H : forall s r s',
             correctForPM_body simbad field years newtime updatepm s = (r, s') ->
             grows Q s s').
  { unfold correctForPM.
    destruct (correctForPM_body _ _ _ _ _ _) as [r s'] eqn:Hrun.
    apply H in Hrun as (evs & Hlog & Hevs). cbn [snd]. rewrite Hlog.
    exact Hevs. }
  intros s r s' Hrun. unfold correctForPM_body in Hrun.
  assert (Hsync : forall r1 s1,
            (if updatepm then updatePM simbad field else ret tt) s = (r1, s1) ->
            grows Q s s1).
  { intros r1 s1 H1. destruct updatepm.
    - apply updatePM_log in H1 as (evs & Hl & Hevs). exists evs.
      split; [exact Hl|]. eapply Forall_impl; [exact Hevs|]. now left.
    - injection H1 as <- <-. apply Hrf. }
  apply bind_inv in Hrun as [([] & s1 & H1 & Hrun)|(e & H1 & _)];
    [|eapply Hsync, H1].
  eapply Htr; [eapply Hsync, H1|]. clear Hsync H1.
  apply bind_inv in Hrun as [(t & ? & [= <- <-] & Hrun)|(e & [=] & _)].
  apply bind_inv in Hrun as [(sources & ? & [= Hsources <-] & Hrun)
                            |(e & [= _ <-] & _)]; [|apply Hrf].
  apply bind_inv in Hrun as [(times & ? & [= _ <-] & Hrun)
                            |(e & [= _ <-] & _)]; [|apply Hrf].
  apply bind_inv in Hrun as [(s0 & ? & [= Hs0 <-] & Hrun)
                            |(e & [= _ <-] & _)]; [|apply Hrf].
  apply bind_inv in Hrun as [(fi & ? & [= _ <-] & Hrun)
                            |(e & [= _ <-] & _)]; [|apply Hrf].
  apply bind_inv in Hrun as [(pm & ? & [= _ <-] & Hrun)
                            |(e & [= _ <-] & _)]; [|apply Hrf].
  apply bind_inv in Hrun as [(seconds & ? & [= _ <-] & Hrun)
                            |(e & [= _ <-] & _)]; [|apply Hrf].
  assert (Hloop : forall r2 s2,
            for_each (update_field pm seconds)
              (enumerate (np.entries (select_fieldid (map f_NAME (FIELD (outms s1)))
                                                     field))) 0 s1 = (r2, s2) ->
            grows Q s1 s2).
  { intros r2 s2 H2.
    assert (Hg : grows loop_event s1 s2).
    { revert H2. apply keeps_for_each;
        [apply grows_refl|apply grows_trans|].
      intros ij found _. apply keeps_grows_update_field. }
    destruct Hg as (evs & Hl & Hevs). exists evs. split; [exact Hl|].
    eapply Forall_impl; [exact Hevs|]. now right. }
  apply bind_inv in Hrun as [(found & s2 & H2 & Hrun)|(e & H2 & _)];
    [|eapply Hloop, H2].
  eapply Htr; [eapply Hloop, H2|].
  apply for_each_found in H2.
  apply take_Ok_inv in Hsources as (idx & Hsel & Hlen).
  rewrite Hsel in H2. cbn [np.entries] in H2.
  destruct idx as [|j idx].
  { destruct sources; [|discriminate]. now rewrite item_nil in Hs0. }
  cbn in H2. subst found. injection Hrun as <- <-. apply Hrf.
Qed.

(** A catalogue miss leaves the measurement set as it is (testable
    property 6): the miss is reported and the stored proper motions are
    what the correction then uses. *)
Theorem catalog_miss_preserves_state (simbad : pyvalue F -> option (F * F))
    (source : pyvalue F) (st : state F) :
  simbad source = None ->
  exists st',
    updatePM simbad source st = (Ok tt, st') /\
    outms st' = outms st /\
    log st' = log st ++ [SimbadNotFound source].
Proof.
  intros Hmiss. eexists. split; [now apply updatePM_not_found|].
  now split.
Qed.

End NotFound.

Lemma catalog_miss_witness :
  exists st',
    updatePM (example_simbad (108.3, -49.5)%float) (Scalar (PyStr "Vega"))
             {| outms := example_ms64; log := [] |}
    = (Ok tt, st') /\
    outms st' = example_ms64 /\
    log st' = [] ++ [SimbadNotFound (Scalar (PyStr "Vega"))].
Proof.
  apply (catalog_miss_preserves_state (F := float)
           (example_simbad (108.3, -49.5)%float) (Scalar (PyStr "Vega"))
           {| outms := example_ms64; log := [] |}).
  reflexivity.
Defined.

(** ** More on the whole call *)

Section FromAnyState.

Context {F : Type} {f64 : Float64 F} {cosine : Cosine F}.
Implicit Types (st s : state F) (field : pyvalue F) (pm : F * F).


End FromAnyState.

Section ByIds.

Context {F : Type} {f64 : Float64 F} {cosine : Cosine F}.
Implicit Types (st s : state F) (field : pyvalue F) (pm : F * F).

Lemma ints_of_ints (l : list Z) :
  np.ints_of (map (@PyInt F) l) = l.
Proof.
  induction l as [|j l IH]; [reflexivity|].
  change (j :: np.ints_of (map (@PyInt F) l) = j :: l). now rewrite IH.
Qed.

Lemma seq_dtype_ints (l : list Z) :
  foldr (fun (v : pyscalar F) d => np.promote (np.scalar_dtype v) d) int64
        (map PyInt l) = int64.
Proof. induction l as [|j l IH]; [reflexivity|]. cbn. now rewrite IH. Qed.

Lemma select_ints (names : list string) (j0 : Z) (ids : list Z) :
  select_fieldid names (Seq (map (@PyInt F) (j0 :: ids))) = np.Ints (j0 :: ids).
Proof.
  unfold select_fieldid, np.array.
  assert (Hd : np.seq_dtype (map (@PyInt F) (j0 :: ids)) = int64)
    by apply (seq_dtype_ints (j0 :: ids)).
  rewrite Hd. case_decide; [|congruence]. now rewrite ints_of_ints.
Qed.


(** An identifier given twice is corrected twice: the second pass starts
    from the direction the first one wrote (with the same elapsed time
    [sec], computed and stored before the loop). *)
Theorem repeated_id_is_corrected_twice (simbad : pyvalue F -> option (F * F))
    (inms : ms F) (j : Z) (years : F) (newtime : pyscalar F)
    (r : field_row F) (k : Z) (others : list Z) (src : source_row F)
    (sec : Z) :
  0 <= j -> FIELD inms !! Z.to_nat j = Some r ->
  np.where_ (map (Z.eqb (f_SOURCE_ID r)) (map s_SOURCE_ID (SOURCE inms)))
  = k :: others ->
  SOURCE inms !! Z.to_nat k = Some src ->
  elapsed_of years newtime (f_TIME r) = Ok sec ->
  exists st,
    correctForPM simbad inms (Seq [PyInt j; PyInt j]) years newtime false
    = (Ok tt, st) /\
    FIELD (outms st) !! Z.to_nat j
    = Some (corrected_row (s_PROPER_MOTION src) sec
              (corrected_row (s_PROPER_MOTION src) sec r)).
Proof.
  intros Hj Hr Hwhere Hsrc Hsec. pose proof (lookup_lt_Some _ _ _ Hr) as Hlt.
  destruct (body_completes simbad (Seq [PyInt j; PyInt j]) years newtime
              {| outms := inms; log := [] |} j [j] r k others src)
    as (st & times & seconds & Hrun & Hrows & Hsecs & HF & _); try assumption.
  { apply (select_ints _ j [j]). }
  { cbn [outms]. repeat constructor; lia. }
  { cbn [outms]. repeat constructor; intros r' Hr';
      (assert (r' = r) as -> by congruence); now exists sec. }
  exists st. split; [exact Hrun|]. rewrite HF. cbn [outms FIELD] in *.
  apply Forall2_cons_inv_l in Hrows as (T1 & times1 & H1 & Hrows & ->).
  apply Forall2_cons_inv_l in Hrows as (T2 & times2 & H2 & Hrows & ->).
  apply Forall2_nil_inv_l in Hrows as ->.
  rewrite list_lookup_fmap, Hr in H1, H2. injection H1 as <-. injection H2 as <-.
  apply Forall2_cons_inv_l in Hsecs as (s1 & secs1 & Hs1 & Hsecs & ->).
  apply Forall2_cons_inv_l in Hsecs as (s2 & secs2 & Hs2 & Hsecs & ->).
  apply Forall2_nil_inv_l in Hsecs as ->.
  assert (s1 = sec) as -> by congruence.
  assert (s2 = sec) as -> by congruence.
  unfold corrected_rows. cbn [zip_with foldl fst snd].
  now rewrite !list_lookup_alter_eq, Hr.
Qed.

End ByIds.


Lemma repeated_id_witness :
  exists st,
    correctForPM (example_simbad (108.3, -49.5)%R) example_ms
                 (Seq [PyInt 2; PyInt 2]) 2%R PyNone false
    = (Ok tt, st) /\
    FIELD (outms st) !! Z.to_nat 2
    = Some (corrected_row (1.66e-14, -7.6e-15)%R 63113850
              (corrected_row (1.66e-14, -7.6e-15)%R 63113850
                 {| f_NAME := "hr8799"; f_SOURCE_ID := 1;
                    f_TIME := 4900001200.25%R;
                    f_REFERENCE_DIR := (6.04, 0.369)%R;
                    f_PHASE_DIR := (6.04, 0.369)%R;
                    f_DELAY_DIR := (6.04, 0.369)%R;
                    f_other := [("CODE", "none")] |}%string)).
Proof.
  apply (repeated_id_is_corrected_twice (F := R)
           (example_simbad (108.3, -49.5)%R) example_ms 2 2%R PyNone
           {| f_NAME := "hr8799"; f_SOURCE_ID := 1; f_TIME := 4900001200.25%R;
              f_REFERENCE_DIR := (6.04, 0.369)%R;
              f_PHASE_DIR := (6.04, 0.369)%R;
              f_DELAY_DIR := (6.04, 0.369)%R;
              f_other := [("CODE", "none")] |}%string
           1 []
           {| s_NAME := "hr8799"; s_SOURCE_ID := 1;
              s_PROPER_MOTION := (1.66e-14, -7.6e-15)%R;
              s_other := [("CODE", "none")] |}%string
           63113850);
    try reflexivity; [lia|apply elapsed_of_examples].
Defined.

(** ** More faults *)

Section MoreFaults.

Context {F : Type} {f64 : Float64 F} {cosine : Cosine F}.
Implicit Types (st s : state F) (field : pyvalue F) (pm : F * F).

Lemma item_raises {A} (col : list A) (i : Z) (e : exn) :
  np.item col i = Raise e -> e = IndexError.
Proof.
  unfold np.item. destruct (_ && _); [destruct (_ !! _)|];
    intros H; congruence.
Qed.

Lemma take_ints_raises {A} (col : list A) (idx : list Z) (e : exn) :
  np.take_ints col idx = Raise e -> e = IndexError.
Proof.
  induction idx as [|i idx IH]; simpl; [discriminate|].
  destruct (np.item col i) eqn:Hi.
  - destruct (np.take_ints col idx); [discriminate|]. intros [= <-]. now apply IH.
  - intros [= <-]. eapply item_raises, Hi.
Qed.

Lemma take_out_of_bounds {A} (col : list A) (idx : list Z) :
  Exists (fun j => j < - Z.of_nat (length col) \/ Z.of_nat (length col) <= j)
         idx ->
  np.take_ints col idx = Raise IndexError.
Proof.
  intros Hex. destruct (np.take_ints col idx) as [l|e] eqn:Htake.
  - apply take_ints_in_range in Htake. apply Exists_exists in Hex as (j & Hj & Hout).
    rewrite Forall_forall in Htake. specialize (Htake j Hj). lia.
  - f_equal. eapply take_ints_raises, Htake.
Qed.

(** An identifier beyond the FIELD table, in either direction, stops the
    call on line 68 with an index error: no direction is written. *)
Theorem index_out_of_bounds_raises (simbad : pyvalue F -> option (F * F))
    (inms : ms F) field (years : F) (newtime : pyscalar F) (updatepm : bool) :
  Exists (fun j => j < - Z.of_nat (length (FIELD inms)) \/
                   Z.of_nat (length (FIELD inms)) <= j)
         (selected inms field) ->
  exists st,
    correctForPM simbad inms field years newtime updatepm
    = (Raise IndexError, st) /\
    FIELD (outms st) = FIELD inms /\
    Forall sync_event (log st).
Proof.
  intros Hex. unfold selected in Hex.
  destruct (select_fieldid (map f_NAME (FIELD inms)) field) as [ids|d] eqn:Hsel;
    [|apply raises_before_update; right; now exists d].
  cbn [np.entries] in Hex.
  unfold correctForPM, correctForPM_body.
  set (s0 := {| outms := inms; log := [] |}).
  destruct ((if updatepm then updatePM simbad field else ret tt) s0)
    as [r1 s1] eqn:H1.
  assert (Hs1 : FIELD (outms s1) = FIELD inms /\ Forall sync_event (log s1) /\
                (r1 = Ok tt \/ r1 = Raise IndexError)).
  { destruct updatepm.
    - destruct (updatePM_FIELD _ _ _ _ _ H1) as [HF Hr].
      destruct (updatePM_log _ _ _ _ _ H1) as (evs & Hl & Hevs).
      repeat split; try assumption. now rewrite Hl.
    - injection H1 as <- <-. repeat split; [constructor|now left]. }
  destruct Hs1 as (HF & Hlog & [->| ->]).
  - exists s1. split; [|now split].
    rewrite (bind_Ok _ _ _ _ _ H1).
    unfold bind at 1, get_ms at 1. rewrite HF, Hsel.
    unfold bind at 1, lift at 1. cbn [np.take].
    rewrite take_out_of_bounds; [reflexivity|now rewrite length_map].
  - exists s1. split; [|now split]. now rewrite (bind_Raise _ _ _ _ _ H1).
Qed.

(** A selected field whose source is missing from the SOURCE table stops
    the call on line 74 with an index error, before anything is printed
    or written. *)
Theorem missing_source_row_raises (simbad : pyvalue F -> option (F * F))
    (inms : ms F) field (years : F) (newtime : pyscalar F)
    (j0 : Z) (ids : list Z) (f0 : field_row F) :
  selected inms field = j0 :: ids ->
  Forall (fun j => 0 <= j < Z.of_nat (length (FIELD inms))) (j0 :: ids) ->
  FIELD inms !! Z.to_nat j0 = Some f0 ->
  Forall (fun row => s_SOURCE_ID row <> f_SOURCE_ID f0) (SOURCE inms) ->
  correctForPM simbad inms field years newtime false
  = (Raise IndexError, {| outms := inms; log := [] |}).
Proof.
  intros Hsel Hall Hf0 Hnone. apply selected_Ints in Hsel.
  destruct (take_ints_rows (map f_SOURCE_ID (FIELD inms)) (j0 :: ids))
    as (sources & Hsources & Hs2); [now rewrite length_map|].
  destruct (take_ints_rows (map f_TIME (FIELD inms)) (j0 :: ids))
    as (times & Htimes & _); [now rewrite length_map|].
  destruct sources as [|s0 sources]; [inversion Hs2|].
  assert (Hs0 : s0 = f_SOURCE_ID f0).
  { apply Forall2_cons_1 in Hs2 as [H0 _].
    rewrite list_lookup_fmap, Hf0 in H0. now injection H0. }
  subst s0.
  assert (Hwhere : np.where_ (map (Z.eqb (f_SOURCE_ID f0))
                                  (map s_SOURCE_ID (SOURCE inms))) = []).
  { apply where_nil. rewrite Forall_fmap, Forall_fmap.
    eapply Forall_impl; [exact Hnone|]. intros row Hrow. simpl.
    apply Z.eqb_neq. congruence. }
  unfold correctForPM, correctForPM_body.
  unfold bind at 1, ret at 1. unfold bind at 1, get_ms at 1.
  cbn [outms]. rewrite Hsel.
  unfold bind at 1, lift at 1. cbn [np.take]. rewrite Hsources.
  unfold bind at 1, lift at 1. cbn [np.take]. rewrite Htimes.
  unfold bind at 1, lift at 1. rewrite item_head.
  unfold bind at 1, lift at 1. now rewrite Hwhere, item_nil.
Qed.

(** With the catalogue step requested, a catalogue match for a name that
    no SOURCE row bears stops the whole call in [updatePM]: the fetched
    value has been printed, FIELD is never read and no direction is
    corrected, whether FIELD has fields of that name or not. *)
Theorem failed_sync_aborts_the_call (simbad : pyvalue F -> option (F * F))
    (inms : ms F) field (years : F) (newtime : pyscalar F) pm :
  simbad field = Some pm ->
  rows_named field inms = [] ->
  correctForPM simbad inms field years newtime true
  = (Raise IndexError,
     {| outms := inms; log := [SimbadFound (fst pm) (snd pm)] |}).
Proof.
  intros Hs Hrows. unfold correctForPM, correctForPM_body.
  erewrite bind_Raise; [reflexivity|].
  now apply (updatePM_no_row simbad field {| outms := inms; log := [] |} pm).
Qed.

End MoreFaults.

Lemma index_out_of_bounds_witness :
  exists st,
    correctForPM (example_simbad (108.3, -49.5)%R) example_ms
                 (Scalar (PyInt 3)) 0%R PyNone false
    = (Raise IndexError, st) /\
    FIELD (outms st) = FIELD example_ms /\
    Forall sync_event (log st).
Proof.
  apply (index_out_of_bounds_raises (F := R)).
  apply Exists_cons_hd. right. simpl. lia.
Defined.

Lemma missing_source_row_witness :
  correctForPM (example_simbad (108.3, -49.5)%R) orphan_ms
               (Scalar (PyStr "hr8799")) 0%R PyNone false
  = (Raise IndexError, {| outms := orphan_ms; log := [] |}).
Proof.
  apply (missing_source_row_raises (F := R) _ orphan_ms
           (Scalar (PyStr "hr8799")) 0%R PyNone 0 []
           {| f_NAME := "hr8799"; f_SOURCE_ID := 7; f_TIME := 4900000600.5%R;
              f_REFERENCE_DIR := (6.04, 0.369)%R;
              f_PHASE_DIR := (6.04, 0.369)%R;
              f_DELAY_DIR := (6.04, 0.369)%R; f_other := [] |}%string);
    try reflexivity.
  - repeat constructor; simpl; lia.
  - repeat constructor. simpl. lia.
Defined.

Lemma failed_sync_witness :
  correctForPM (example_simbad (108.3, -49.5)%R) example_ms
               (Scalar (PyStr "HR 8799")) 0%R PyNone true
  = (Raise IndexError,
     {| outms := example_ms; log := [SimbadFound 108.3%R (-49.5)%R] |}).
Proof.
  apply (failed_sync_aborts_the_call (F := R)
           (example_simbad (108.3, -49.5)%R) example_ms
           (Scalar (PyStr "HR 8799")) 0%R PyNone (108.3, -49.5)%R);
    reflexivity.
Defined.

(** ** The catalogue step and the correction together *)

Section SyncThenCorrect.

Context {F : Type} {f64 : Float64 F} {cosine : Cosine F}.
Implicit Types (st s : state F) (field : pyvalue F) (pm : F * F).

(** The catalogue step leaves the NAME and SOURCE_ID columns of SOURCE
    as they are. *)
Lemma synced_columns (source : pyvalue F) (t : ms F) (v : F * F) :
  let t' := foldl (fun tbl i => alter (set_pm v) (Z.to_nat i) tbl)
                  (SOURCE t) (rows_named source t) in
  map s_NAME t' = map s_NAME (SOURCE t) /\
  map s_SOURCE_ID t' = map s_SOURCE_ID (SOURCE t).
Proof.
  intros t'.
  assert (Hrow : forall n,
            t' !! n = (fun row => if name_is source (s_NAME row)
                                  then set_pm v row else row) <$> SOURCE t !! n).
  { intros n. destruct (SOURCE t !! n) as [row|] eqn:Hn.
    - subst t'. now rewrite (synced_rows_lookup source t v n row Hn).
    - apply lookup_ge_None in Hn. apply lookup_ge_None. subst t'.
      now rewrite (foldl_alter_length (set_pm v)). }
  split; apply list_eq; intros n; rewrite !list_lookup_fmap, Hrow;
    destruct (SOURCE t !! n) as [row|]; simpl; try reflexivity;
    now destruct (name_is source (s_NAME row)).
Qed.


(** A second catalogue step with the same answer changes nothing: it
    reports as the stored value the one the first step wrote (converted
    back to milliarcseconds per year) and writes the same cells again. *)
Theorem updatePM_twice (simbad : pyvalue F -> option (F * F))
    (source : pyvalue F) (st : state F) (pm : F * F) (k : Z) (rest : list Z) :
  simbad source = Some pm ->
  rows_named source (outms st) = k :: rest ->
  exists st1 st2,
    updatePM simbad source st = (Ok tt, st1) /\
    updatePM simbad source st1 = (Ok tt, st2) /\
    outms st2 = outms st1 /\
    log st2 = log st1 ++
              [SimbadFound (fst pm) (snd pm);
               CurrentPM (fst (to_mas_per_yr (to_rad_per_s pm)))
                         (snd (to_mas_per_yr (to_rad_per_s pm)));
               PutPM (k :: rest) (to_rad_per_s pm);
               Updated].
Proof.
  intros Hs Hrows.
  destruct (updatePM_found simbad source st pm k rest Hs Hrows)
    as (row & Hrow & Hname & Hrun1).
  rewrite <- Hrows in Hrun1 at 1.
  match type of Hrun1 with _ = (_, ?s) => set (st1 := s) in Hrun1 end.
  destruct (synced_columns source (outms st) (to_rad_per_s pm)) as [Hnames _].
  assert (Hrows1 : rows_named source (outms st1) = k :: rest).
  { unfold rows_named. subst st1. cbn [outms SOURCE].
    rewrite Hnames. exact Hrows. }
  destruct (updatePM_found simbad source st1 pm k rest Hs Hrows1)
    as (row1 & Hrow1 & _ & Hrun2).
  assert (Hrow1' : row1 = set_pm (to_rad_per_s pm) row).
  { subst st1. cbn [outms SOURCE] in Hrow1.
    rewrite (synced_rows_lookup source (outms st) _ _ row Hrow), Hname in Hrow1.
    now injection Hrow1. }
  subst row1. cbn [s_PROPER_MOTION set_pm] in Hrun2.
  exists st1. eexists. split; [exact Hrun1|]. split; [exact Hrun2|].
  cbn [outms log]. split; [|reflexivity].
  destruct (outms st1) as [fld srcs] eqn:Hout. cbn [FIELD SOURCE]. f_equal.
  rewrite <- Hrows1. change srcs with (SOURCE {| FIELD := fld; SOURCE := srcs |}).
  rewrite <- Hout. apply list_eq. intros n.
  destruct (SOURCE (outms st1) !! n) as [r|] eqn:Hn.
  - rewrite (synced_rows_lookup source (outms st1) _ n r Hn).
    destruct (name_is source (s_NAME r)) eqn:Hr; [|reflexivity].
    f_equal. subst st1. cbn [outms SOURCE] in Hn.
    destruct (SOURCE (outms st) !! n) as [r0|] eqn:Hn0.
    + rewrite (synced_rows_lookup source (outms st) _ n r0 Hn0) in Hn.
      injection Hn as <-.
      destruct (name_is source (s_NAME r0)) eqn:H0; [reflexivity|congruence].
    + apply lookup_ge_None in Hn0. apply lookup_lt_Some in Hn.
      rewrite (foldl_alter_length (set_pm (to_rad_per_s pm))) in Hn. lia.
  - apply lookup_ge_None in Hn. apply lookup_ge_None.
    now rewrite (foldl_alter_length (set_pm (to_rad_per_s pm))).
Qed.

End SyncThenCorrect.


Lemma updatePM_twice_witness :
  exists st1 st2,
    updatePM (example_simbad (108.3, -49.5)%float) (Scalar (PyStr "hr8799"))
             {| outms := example_ms64; log := [] |}
    = (Ok tt, st1) /\
    updatePM (example_simbad (108.3, -49.5)%float) (Scalar (PyStr "hr8799")) st1
    = (Ok tt, st2) /\
    outms st2 = outms st1 /\
    log st2 = log st1 ++
              [SimbadFound 108.3%float (-49.5)%float;
               CurrentPM (fst (to_mas_per_yr (to_rad_per_s (108.3, -49.5)%float)))
                         (snd (to_mas_per_yr (to_rad_per_s (108.3, -49.5)%float)));
               PutPM [1] (to_rad_per_s (108.3, -49.5)%float);
               Updated].
Proof.
  apply (updatePM_twice (F := float) (example_simbad (108.3, -49.5)%float)
           (Scalar (PyStr "hr8799")) {| outms := example_ms64; log := [] |}
           (108.3, -49.5)%float 1 []);
    reflexivity.
Defined.

(** ** An index error and the directions *)

Section IndexErrors.

Context {F : Type} {f64 : Float64 F} {cosine : Cosine F}.
Implicit Types (st s : state F) (field : pyvalue F) (pm : F * F).

Lemma getcell_raises direct (j : Z) s e s' :
  getcell direct j s = (Raise e, s') -> e = RuntimeError.
Proof.
  unfold getcell, bind, get_ms, lift, ret.
  destruct ((0 <=? j) && _); [destruct (FIELD (outms s) !! _)|]; congruence.
Qed.

Lemma putcell_raises direct (j : Z) (v : F * F) s e s' :
  putcell direct j v s = (Raise e, s') -> e = RuntimeError.
Proof.
  unfold putcell, set_FIELD, emit, bind, get_ms, lift.
  destruct ((0 <=? j) && _); congruence.
Qed.

(** Inside the loop only the table tool can raise: [seconds[i]] exists
    for every position the loop reaches. *)
Lemma update_cell_raises pm (seconds : list Z) (i : nat) (j : Z) direct
    s e s' :
  (i < length seconds)%nat ->
  update_cell pm seconds (Z.of_nat i) j direct s = (Raise e, s') ->
  e = RuntimeError.
Proof.
  intros Hi Hrun. destruct (lookup_lt_is_Some_2 seconds i Hi) as [t Ht].
  unfold update_cell in Hrun. rewrite (item_lookup _ _ _ Ht) in Hrun.
  apply bind_inv in Hrun as [(d & s1 & _ & Hrun)|(e0 & Hrun & [= ->])];
    [|eapply getcell_raises, Hrun].
  apply bind_inv in Hrun as [(t' & s2 & _ & Hrun)|(e0 & [=] & _)].
  eapply putcell_raises, Hrun.
Qed.

Lemma update_field_raises pm (seconds : list Z) (i : nat) (j found : Z)
    s e s' :
  (i < length seconds)%nat ->
  update_field pm seconds (Z.of_nat i, j) found s = (Raise e, s') ->
  e = RuntimeError.
Proof.
  intros Hi Hrun. unfold update_field in Hrun. cbn [fst snd for_each] in Hrun.
  apply bind_inv in Hrun as [(? & s1 & _ & Hrun)|(e0 & [=] & _)].
  apply bind_inv in Hrun as [(? & s2 & _ & [=])|(e0 & Hrun & [= ->])].
  apply bind_inv in Hrun as [(? & s2 & _ & Hrun)|(e1 & Hrun & [= ->])];
    [|eapply update_cell_raises; eassumption].
  apply bind_inv in Hrun as [(? & s3 & _ & Hrun)|(e1 & Hrun & [= ->])];
    [|eapply update_cell_raises; eassumption].
  apply bind_inv in Hrun as [(? & s4 & _ & [=])|(e1 & Hrun & [= ->])].
  eapply update_cell_raises; eassumption.
Qed.

Lemma update_loop_raises pm (seconds : list Z) (ids : list Z) :
  forall (i0 : nat) (found : Z) s e s',
    (i0 + length ids <= length seconds)%nat ->
    for_each (update_field pm seconds) (enumerate_from (Z.of_nat i0) ids)
             found s = (Raise e, s') ->
    e = RuntimeError.
Proof.
  induction ids as [|j ids IH]; intros i0 found s e s' Hlen Hrun;
    cbn [enumerate_from for_each] in Hrun; [discriminate|].
  simpl in Hlen.
  apply bind_inv in Hrun as [(f1 & s1 & _ & Hrun)|(e0 & Hrun & [= ->])].
  - replace (Z.of_nat i0 + 1) with (Z.of_nat (S i0)) in Hrun by lia.
    eapply IH; [|exact Hrun]. lia.
  - eapply update_field_raises; [|exact Hrun]. lia.
Qed.

(** A call that ends in an index error has written no direction: FIELD
    is as it was copied, and the log holds nothing but what the catalogue
    step printed and wrote. *)
Theorem index_error_writes_no_direction
    (simbad : pyvalue F -> option (F * F)) (inms : ms F) field (years : F)
    (newtime : pyscalar F) (updatepm : bool) (st : state F) :
  correctForPM simbad inms field years newtime updatepm
  = (Raise IndexError, st) ->
  FIELD (outms st) = FIELD inms /\ Forall sync_event (log st).
Proof.
  unfold correctForPM, correctForPM_body.
  set (s0 := {| outms := inms; log := [] |}). intros Hrun.
  assert (Hsync : forall r1 s1,
            (if updatepm then updatePM simbad field else ret tt) s0 = (r1, s1) ->
            FIELD (outms s1) = FIELD inms /\ Forall sync_event (log s1)).
  { intros r1 s1 H1. destruct updatepm.
    - destruct (updatePM_FIELD _ _ _ _ _ H1) as [HF _].
      destruct (updatePM_log _ _ _ _ _ H1) as (evs & Hl & Hevs).
      split; [exact HF|]. now rewrite Hl.
    - injection H1 as <- <-. split; [reflexivity|constructor]. }
  apply bind_inv in Hrun as [([] & s1 & H1 & Hrun)|(e & H1 & _)];
    [|eapply Hsync, H1].
  apply Hsync in H1. clear Hsync.
  apply bind_inv in Hrun as [(t & ? & [= <- <-] & Hrun)|(e & [=] & _)].
  apply bind_inv in Hrun as [(sources & ? & [= Hsources <-] & Hrun)
                            |(e & [= _ <-] & _)]; [|exact H1].
  apply bind_inv in Hrun as [(times & ? & [= Htimes <-] & Hrun)
                            |(e & [= _ <-] & _)]; [|exact H1].
  apply bind_inv in Hrun as [(src0 & ? & [= _ <-] & Hrun)
                            |(e & [= _ <-] & _)]; [|exact H1].
  apply bind_inv in Hrun as [(fi & ? & [= _ <-] & Hrun)
                            |(e & [= _ <-] & _)]; [|exact H1].
  apply bind_inv in Hrun as [(pm & ? & [= _ <-] & Hrun)
                            |(e & [= _ <-] & _)]; [|exact H1].
  apply bind_inv in Hrun as [(seconds & ? & [= Hsec <-] & Hrun)
                            |(e & [= _ <-] & _)]; [|exact H1].
  exfalso.
  apply take_Ok_inv in Htimes as (ids & Hsel & Hlen).
  rewrite Hsel in Hrun, Hsec. cbn [np.entries] in Hrun.
  apply (elapsed_seconds_length ids times years newtime seconds Hlen) in Hsec.
  apply bind_inv in Hrun as [(found & s2 & _ & Hrun)|(e & Hrun & [= He])].
  - destruct (found =? 0); discriminate.
  - subst e. unfold enumerate in Hrun. change 0 with (Z.of_nat 0) in Hrun at 1.
    apply update_loop_raises in Hrun; [discriminate|].
    rewrite Hsec. simpl. lia.
Qed.

End IndexErrors.

Lemma index_error_witness :
  FIELD (outms {| outms := orphan_ms; log := [] |}) = FIELD orphan_ms /\
  Forall sync_event (log {| outms := orphan_ms; log := @nil (event R) |}).
Proof.
  apply (index_error_writes_no_direction (F := R)
           (example_simbad (108.3, -49.5)%R) orphan_ms
           (Scalar (PyStr "hr8799")) 0%R PyNone false).
  reflexivity.
Defined.
